(** * Security events analyzer: a Rocq model of [security_events_analyzer_final.py]

    The development follows the analytical core of [SecurityEventsAnalyzer]:
    - [extract_detailed_threat_category], the rule-based threat classifier;
    - the hour / date histograms of [analyze_temporal_patterns] and the
      Date x Hour pivot of [_create_comprehensive_heatmap];
    - the cyclic pattern search of [analyze_temporal_patterns];
    - the summary block of [export_results] and the run of
      [run_full_analysis];
    - the search for the events key in [load_and_clean_data] and the
      listings printed by the analysis;
    - the guards on missing columns of [analyze_temporal_patterns] and
      [export_results], on frames that lack a column.

    Python [str] values are modelled by [string]; Python [int] by [nat] or [Z];
    a pandas [Series] obtained by [value_counts().sort_index()] by an
    association list kept in ascending key order; an exception raised by the
    interpreter by the [Raise] constructor of a small error monad. *)

From Stdlib Require Import List Arith ZArith Lia Bool Ascii String QArith.
From Stdlib Require Import Sorting.Sorted Sorting.Permutation.
Import ListNotations.

Open Scope string_scope.
Open Scope list_scope.
Open Scope nat_scope.

(* ================================================================== *)
(** * Text primitives: [str.upper] and the [in] operator               *)
(* ================================================================== *)

Module Text.

(** [str.upper()] on one character.  Signatures are ASCII rule names; on the
    letters a-z the mapping subtracts 32, every other character is kept.
    This is Python's mapping on ASCII text only: outside ASCII Python
    applies the Unicode case mapping, which the model does not cover. *)
Definition upper_char (c : ascii) : ascii :=
  let n := nat_of_ascii c in
  if (97 <=? n) && (n <=? 122) then ascii_of_nat (n - 32) else c.

Fixpoint upper (s : string) : string :=
  match s with
  | EmptyString => EmptyString
  | String c r => String (upper_char c) (upper r)
  end.

(** [hay.startswith(needle)]. *)
Fixpoint startswith (needle hay : string) : bool :=
  match needle, hay with
  | EmptyString, _ => true
  | String _ _, EmptyString => false
  | String a n', String b h' => Ascii.eqb a b && startswith n' h'
  end.

(** [needle in hay]: substring membership. *)
Fixpoint contains (needle hay : string) : bool :=
  startswith needle hay ||
  match hay with
  | EmptyString => false
  | String _ h' => contains needle h'
  end.

End Text.
Import Text.

Notation "k 'isin' s" := (contains k s) (at level 70, no associativity).

(* ================================================================== *)
(** * Threat classifier                                                *)
(* ================================================================== *)

Module Classifier.

(** The detail label chosen inside each branch of the [if]/[elif] chain. *)
Definition malware_detail (sig : string) : string :=
  if "WIN.TROJAN" isin sig then "Trojan/Win.Jadtre"
  else if "USER-AGENT" isin sig then "C&C Communication"
  else "Malware Activity".

Definition exploit_detail (sig : string) : string :=
  if "WIN32K" isin sig then "Privilege Escalation (Win32k)"
  else if ("JAVA JRE" isin sig) || ("WEBLOGIC" isin sig)
       then "Remote Code Execution (Java)"
  else if "ORACLE 9I" isin sig then "Buffer Overflow (Oracle)"
  else if "IIS" isin sig then "Web Server Exploit"
  else "Generic Exploit".

Definition network_detail (sig : string) : string :=
  if "DCERPC" isin sig then "RPC Service Exploit"
  else if "SMB-DS" isin sig then "SMB Service Exploit"
  else "Network Protocol Anomaly".

Definition indicator_detail (sig : string) : string :=
  if "MYSQL" isin sig then "Database Reconnaissance"
  else "Suspicious Activity".

(** [extract_detailed_threat_category(signature)]: returns
    [(main_cat, detail)]. *)
Definition extract_detailed_threat_category (signature : string)
  : string * string :=
  let sig := upper signature in
  if "MALWARE-CNC" isin sig then ("MALWARE", malware_detail sig)
  else if "EXPLOIT" isin sig then ("EXPLOIT", exploit_detail sig)
  else if "NETBIOS" isin sig then ("NETWORK", network_detail sig)
  else if "INDICATOR-COMPROMISE" isin sig
       then ("INDICATOR", indicator_detail sig)
  else if "RCE" isin sig then ("EXPLOIT", "Remote Code Execution")
  else if ("PRIVILEGE" isin sig) || ("ELEVATION" isin sig)
       then ("EXPLOIT", "Privilege Escalation")
  else if ("BUFFER" isin sig) || ("BO" isin sig) || ("OVERFLOW" isin sig)
       then ("EXPLOIT", "Buffer Overflow")
  else ("OTHER", "Uncategorized").

(** The keywords tested by the top-level chain, in source order. *)
Definition recognized_keywords : list string :=
  [ "MALWARE-CNC"; "EXPLOIT"; "NETBIOS"; "INDICATOR-COMPROMISE"; "RCE";
    "PRIVILEGE"; "ELEVATION"; "BUFFER"; "BO"; "OVERFLOW" ].

(** The keywords whose rules precede the buffer-overflow rule. *)
Definition higher_priority_than_bo : list string :=
  [ "MALWARE-CNC"; "EXPLOIT"; "NETBIOS"; "INDICATOR-COMPROMISE"; "RCE";
    "PRIVILEGE"; "ELEVATION" ].

(** ** The category taxonomy as data

    The specification describes the same chain as an ordered list of rules
    (predicate over the uppercased text, main label, detail resolver) read
    with a first-match-wins interpreter.  [taxonomy] lists the rules in the
    order of the source. *)
Record rule : Type := Rule
  { applies : string -> bool;
    main_label : string;
    detail_of : string -> string }.

Definition any_of (kws : list string) (sig : string) : bool :=
  existsb (fun k => k isin sig) kws.

Definition taxonomy : list rule :=
  [ Rule (any_of ["MALWARE-CNC"]) "MALWARE" malware_detail;
    Rule (any_of ["EXPLOIT"]) "EXPLOIT" exploit_detail;
    Rule (any_of ["NETBIOS"]) "NETWORK" network_detail;
    Rule (any_of ["INDICATOR-COMPROMISE"]) "INDICATOR" indicator_detail;
    Rule (any_of ["RCE"]) "EXPLOIT" (fun _ => "Remote Code Execution");
    Rule (any_of ["PRIVILEGE"; "ELEVATION"]) "EXPLOIT"
         (fun _ => "Privilege Escalation");
    Rule (any_of ["BUFFER"; "BO"; "OVERFLOW"]) "EXPLOIT"
         (fun _ => "Buffer Overflow") ].

Definition fallback : string * string := ("OTHER", "Uncategorized").

Fixpoint first_match (rules : list rule) (sig : string) : string * string :=
  match rules with
  | [] => fallback
  | r :: rs =>
      if applies r sig then (main_label r, detail_of r sig)
      else first_match rs sig
  end.

End Classifier.
Import Classifier.

(* ================================================================== *)
(** * Exceptions                                                       *)
(* ================================================================== *)

Module Exn.

(** The Python exceptions the modelled code can raise. *)
Inductive exn : Type := KeyError | ValueError | ZeroDivisionError.

Inductive result (A : Type) : Type :=
| Ok (a : A)
| Raise (e : exn).
Arguments Ok {A} a.
Arguments Raise {A} e.

Definition bind {A B} (m : result A) (f : A -> result B) : result B :=
  match m with
  | Ok a => f a
  | Raise e => Raise e
  end.

End Exn.
Import Exn.

Notation "x <- m ;; k" := (bind m (fun x => k))
  (at level 61, m at next level, right associativity).

(* ================================================================== *)
(** * Event model                                                      *)
(* ================================================================== *)

Module Events.

(** [datetime.date]. *)
Record Date : Type := mkDate { year : nat; month : nat; day : nat }.

(** A parsed [timestamp]; [strftime('%Y-%m-%d %H:%M')] shows it to the
    minute. *)
Record Timestamp : Type := mkTimestamp
  { ts_date : Date; ts_hour : nat; ts_minute : nat; ts_second : nat }.

(** One row of [self.df] after [load_and_clean_data]: the [timestamp]
    column holds [NaT] ([None] here) where [pd.to_datetime(errors='coerce')]
    could not parse the text. *)
Record Event : Type := mkEvent
  { signature : string; timestamp : option Timestamp }.

(** The derived columns [df['hour']] and [df['date']]: null on [NaT]. *)
Definition hour (e : Event) : option nat := option_map ts_hour (timestamp e).
Definition date (e : Event) : option Date := option_map ts_date (timestamp e).

(** [self.df]: the rows in ingestion order. *)
Definition DataFrame : Type := list Event.

(** [pd.DataFrame(events)] takes its columns from the keys of the records,
    so a frame built from an empty list has no column at all; with at least
    one record the columns [signature], [timestamp] and the derived
    [hour], [date], [date_str] are present.  This is the frame of records
    that all carry the two keys; a frame that has rows and lacks a column
    is a [Frame] of the module [Frames] below. *)
Definition has_columns (df : DataFrame) : bool :=
  match df with [] => false | _ :: _ => true end.

Definition valid (e : Event) : bool :=
  match timestamp e with Some _ => true | None => false end.

End Events.
Import Events.

(* ================================================================== *)
(** * Index-sorted count series                                        *)
(* ================================================================== *)

(** Keys of a series: equality and strict order tests. *)
Class Ordered (K : Type) : Type :=
  { keqb : K -> K -> bool;
    kltb : K -> K -> bool }.

#[export] Instance nat_Ordered : Ordered nat :=
  {| keqb := Nat.eqb; kltb := Nat.ltb |}.

Definition date_eqb (a b : Date) : bool :=
  (year a =? year b) && (month a =? month b) && (day a =? day b).

Definition date_ltb (a b : Date) : bool :=
  (year a <? year b) ||
  ((year a =? year b) &&
   ((month a <? month b) || ((month a =? month b) && (day a <? day b)))).

#[export] Instance Date_Ordered : Ordered Date :=
  {| keqb := date_eqb; kltb := date_ltb |}.

#[export] Instance string_Ordered : Ordered string :=
  {| keqb := String.eqb; kltb := String.ltb |}.

(** Tuples compare lexicographically, as the keys of a [groupby] on two
    columns do. *)
#[export] Instance pair_Ordered {A B} `{Ordered A} `{Ordered B}
  : Ordered (A * B) :=
  {| keqb := fun p q => keqb (fst p) (fst q) && keqb (snd p) (snd q);
     kltb := fun p q => kltb (fst p) (fst q) ||
                        (keqb (fst p) (fst q) && kltb (snd p) (snd q)) |}.

(** The tests of an [Ordered] key decide equality and a strict total
    order. *)
Class OrderedLaws (K : Type) `{Ordered K} : Prop :=
  { keqb_eq : forall a b : K, keqb a b = true <-> a = b;
    kltb_irrefl : forall a : K, kltb a a = false;
    kltb_trans : forall a b c : K,
        kltb a b = true -> kltb b c = true -> kltb a c = true;
    kltb_total : forall a b : K,
        kltb a b = false -> keqb a b = false -> kltb b a = true }.

Module Series.
Section WithKey.
Context {K : Type} `{Ordered K}.

(** A [Series] of counts with its index in ascending order. *)
Definition t : Type := list (K * nat).

(** Count one more occurrence of [k], keeping the index sorted. *)
Fixpoint bump (k : K) (s : t) : t :=
  match s with
  | [] => [(k, 1)]
  | (k', c) :: r =>
      if keqb k k' then (k', S c) :: r
      else if kltb k k' then (k, 1) :: (k', c) :: r
      else (k', c) :: bump k r
  end.

(** [dropna]: the non-null entries of a column. *)
Fixpoint dropna (col : list (option K)) : list K :=
  match col with
  | [] => []
  | Some k :: r => k :: dropna r
  | None :: r => dropna r
  end.

(** [col.value_counts().sort_index()]; [value_counts] drops nulls. *)
Definition value_counts_sorted (col : list (option K)) : t :=
  fold_right bump [] (dropna col).

(** [s.get(k, default)]. *)
Fixpoint get (k : K) (default : nat) (s : t) : nat :=
  match s with
  | [] => default
  | (k', c) :: r => if keqb k k' then c else get k default r
  end.

Definition index (s : t) : list K := map fst s.
Definition values (s : t) : list nat := map snd s.

(** The strict order on keys, and the series whose index ascends
    strictly. *)
Definition key_lt (a b : K) : Prop := kltb a b = true.

Definition ascending (s : t) : Prop := StronglySorted key_lt (index s).

(** [s.sum()]. *)
Definition sum (s : t) : nat := list_sum (values s).

(** The first entry carrying the largest count, scanning left to right
    from [best]. *)
Fixpoint argmax_from (best : K * nat) (s : t) : K * nat :=
  match s with
  | [] => best
  | (k, c) :: r =>
      if snd best <? c then argmax_from (k, c) r else argmax_from best r
  end.

(** [s.idxmax()]: the label of the first occurrence of the maximum;
    [ValueError] on an empty series. *)
Definition idxmax (s : t) : result K :=
  match s with
  | [] => Raise ValueError
  | x :: r => Ok (fst (argmax_from x r))
  end.

(** [s.max()]; [None] stands for the [nan] of an empty series. *)
Definition max (s : t) : option nat :=
  match s with
  | [] => None
  | x :: r => Some (snd (argmax_from x r))
  end.

(** [s.mean()]: the sum of the values over their number, computed by
    pandas in floating point and kept exact here; [None] stands for the
    [nan] of an empty series. *)
Definition mean (s : t) : option Q :=
  match s with
  | [] => None
  | _ :: _ => Some (Z.of_nat (sum s) # Pos.of_nat (List.length s))
  end.

(** [col.mode()[0]]: the modes come sorted, so the first one is the least
    key among the most frequent; [KeyError] when the column has no
    non-null entry. *)
Definition mode0 (col : list (option K)) : result K :=
  match value_counts_sorted col with
  | [] => Raise KeyError
  | x :: r => Ok (fst (argmax_from x r))
  end.

End WithKey.
Arguments t K : clear implicits.
End Series.

(* ================================================================== *)
(** * Temporal aggregator                                              *)
(* ================================================================== *)

Module Temporal.

(** [self.df['hour'].value_counts().sort_index()]. *)
Definition hourly_counts (df : DataFrame) : Series.t nat :=
  Series.value_counts_sorted (map hour df).

(** [self.df['date'].value_counts().sort_index()]. *)
Definition daily_counts (df : DataFrame) : Series.t Date :=
  Series.value_counts_sorted (map date df).

(** [hourly_counts.idxmax()]. *)
Definition most_active_hour (df : DataFrame) : result nat :=
  Series.idxmax (hourly_counts df).

(** [hourly_counts.max()]. *)
Definition most_active_count (df : DataFrame) : option nat :=
  Series.max (hourly_counts df).

(** [daily_counts.mean()]. *)
Definition avg_events_per_day (df : DataFrame) : option Q :=
  Series.mean (daily_counts df).

(** Reference counts, read off the rows directly. *)
Definition total_valid_events (df : DataFrame) : nat :=
  List.length (filter valid df).

Definition option_nat_eqb (a b : option nat) : bool :=
  match a, b with
  | Some x, Some y => x =? y
  | None, None => true
  | _, _ => false
  end.

Definition events_in_hour (h : nat) (df : DataFrame) : nat :=
  List.length (filter (fun e => option_nat_eqb (hour e) (Some h)) df).

Definition Date_eq_dec (a b : Date) : {a = b} + {a <> b}.
Proof. decide equality; apply Nat.eq_dec. Defined.

Definition distinct_dates (df : DataFrame) : nat :=
  List.length (nodup Date_eq_dec (Series.dropna (map date df))).

Definition events_on (d : Date) (h : nat) (df : DataFrame) : nat :=
  List.length
    (filter (fun e => match timestamp e with
                      | Some ts => date_eqb (ts_date ts) d && (ts_hour ts =? h)
                      | None => false
                      end) df).

End Temporal.
Import Temporal.

(* ================================================================== *)
(** * Date x Hour matrix                                               *)
(* ================================================================== *)

Module Heatmap.

(** The result of [pivot_table(index='date_str', columns='hour',
    values='signature', aggfunc='count', fill_value=0).sort_index()]: row
    labels, column labels and the grid of counts, row by row.  A row label
    is the text of a date ([date_str]); it is kept here as the [Date] it
    prints, whose order is the order of the ISO text. *)
Record Pivot : Type := mkPivot
  { pv_index : list Date;
    pv_columns : list nat;
    pv_values : list (list nat) }.

(** The group key of a row; rows with a null [hour] fall out of the
    [groupby] ([dropna=True]). *)
Definition group_key (e : Event) : option (Date * nat) :=
  match timestamp e with
  | Some ts => Some (ts_date ts, ts_hour ts)
  | None => None
  end.

(** Number of rows per (date, hour) group: [aggfunc='count'] over the
    never-null [signature] column. *)
Definition group_counts (df : DataFrame) : Series.t (Date * nat) :=
  Series.value_counts_sorted (map group_key df).

(** The sorted distinct labels of one level of the group keys. *)
Definition level {K} `{Ordered K} (keys : list K) : list K :=
  Series.index (Series.value_counts_sorted (map Some keys)).

(** Unstacking the groups into a grid; an absent (date, hour) pair takes
    [fill_value=0]. *)
Definition pivot_table (df : DataFrame) : Pivot :=
  let groups := group_counts df in
  let keys := Series.index groups in
  let idx := level (map fst keys) in
  let cols := level (map snd keys) in
  {| pv_index := idx;
     pv_columns := cols;
     pv_values :=
       map (fun d => map (fun h => Series.get (d, h) 0 groups) cols) idx |}.

(** Label-based lookup in two parallel lists. *)
Fixpoint locate {K V} `{Ordered K} (k : K) (labels : list K) (vs : list V)
  : option V :=
  match labels, vs with
  | l :: labels', v :: vs' => if keqb k l then Some v else locate k labels' vs'
  | _, _ => None
  end.

(** The cell of date [d] and hour [h] in the logical dense grid: the
    stored count, and 0 where the row or the column is not materialised. *)
Definition cell (p : Pivot) (d : Date) (h : nat) : nat :=
  match locate d (pv_index p) (pv_values p) with
  | Some row =>
      match locate h (pv_columns p) row with
      | Some c => c
      | None => 0
      end
  | None => 0
  end.

(** Sum of every stored cell. *)
Definition total (p : Pivot) : nat := list_sum (map list_sum (pv_values p)).

(** Sum of [f d h] over a grid of row labels and column labels. *)
Definition grid_sum {A B} (f : A -> B -> nat) (rows : list A) (cols : list B)
  : nat :=
  list_sum (map (fun d => list_sum (map (fun h => f d h) cols)) rows).

End Heatmap.
Import Heatmap.

(* ================================================================== *)
(** * Cyclic pattern detector                                          *)
(* ================================================================== *)

Module Cyclic.

(** [tokens[a:b]] for non-negative bounds. *)
Definition slice {A} (tokens : list A) (a b : nat) : list A :=
  firstn (b - a) (skipn a tokens).

(** Equality of two tuples of signatures. *)
Definition tuple_eqb (p q : list string) : bool :=
  if list_eq_dec string_dec p q then true else false.

(** [pattern] and [next_pattern] of the scan at start index [i]. *)
Definition pattern_at (tokens : list string) (i l : nat) : list string :=
  slice tokens i (i + l).
Definition next_pattern_at (tokens : list string) (i l : nat) : list string :=
  slice tokens (i + l) (i + l * 2).

(** [len(range(n))] for a Python integer [n]: empty when [n] is negative. *)
Definition range_len (n : Z) : nat := Z.to_nat n.

(** [for i in range(...): if p(i): ...; break], started at [i] with
    [n] indices left: the first index satisfying [p]. *)
Fixpoint first_index (p : nat -> bool) (i n : nat) : option nat :=
  match n with
  | 0 => None
  | S n' => if p i then Some i else first_index p (S i) n'
  end.

(** The scan [for i in range(len(signatures_list) - pattern_length * 2)]
    up to its [break]. *)
Definition find_repeat (tokens : list string) (l : nat) : option nat :=
  first_index
    (fun i => tuple_eqb (pattern_at tokens i l) (next_pattern_at tokens i l))
    0
    (range_len (Z.of_nat (List.length tokens) - Z.of_nat l * 2)).

(** The loop [for k in range(2, 10)], at index [k] with [n] indices left
    and [repetitions] counted so far. *)
Fixpoint extend (tokens pattern : list string) (i l k n repetitions : nat)
  : nat :=
  match n with
  | 0 => repetitions
  | S n' =>
      let check_start := i + l * k in
      if List.length tokens <? check_start + l then repetitions
      else if tuple_eqb (slice tokens check_start (check_start + l)) pattern
           then extend tokens pattern i l (S k) n' (S repetitions)
           else repetitions
  end.

(** [repetitions] after the extension loop of a match at [i]. *)
Definition count_repetitions (tokens : list string) (i l : nat) : nat :=
  extend tokens (pattern_at tokens i l) i l 2 (10 - 2) 1.

(** What the detector prints. *)
Inductive line : Type :=
| Checking (l : nat)
| Found (l i : nat) (pattern : list string)
| Repeats (l repetitions : nat)
| NotFound (l : nat).

(** One turn of [for pattern_length in self.pattern_lengths_to_check]; the
    state is the flag [patterns_found] and the lines printed so far. *)
Definition check_length (tokens : list string) (st : bool * list line)
  (l : nat) : bool * list line :=
  let '(patterns_found, out) := st in
  let out := out ++ [Checking l] in
  match find_repeat tokens l with
  | Some i =>
      let repetitions := count_repetitions tokens i l in
      (true,
       out ++ [Found l i (pattern_at tokens i l)]
           ++ (if 1 <? repetitions then [Repeats l repetitions] else []))
  | None =>
      (patterns_found,
       out ++ (if negb patterns_found then [NotFound l] else []))
  end.

(** [self.pattern_lengths_to_check]. *)
Definition pattern_lengths_to_check : list nat := [3; 5; 8].

(** The whole search; [patterns_found = False] is set once, before the
    loop over the lengths. *)
Definition cyclic_patterns (lengths : list nat) (tokens : list string)
  : list line :=
  snd (fold_left (check_length tokens) lengths (false, [])).

(** The lines that report on length [l]. *)
Definition about (l : nat) (ln : line) : bool :=
  match ln with
  | Checking _ => false
  | Found l' _ _ => l' =? l
  | Repeats l' _ => l' =? l
  | NotFound l' => l' =? l
  end.

Definition reported (l : nat) (out : list line) : list line :=
  filter (about l) out.

(** ** The search as the specification words it

    Start indices run from 0 to [len(tokens) - 2*l] inclusive, and the
    extension makes up to 10 checks, for k = 2, 3, ... *)
Definition spec_find_repeat (tokens : list string) (l : nat) : option nat :=
  first_index
    (fun i => tuple_eqb (pattern_at tokens i l) (next_pattern_at tokens i l))
    0
    (range_len (Z.of_nat (List.length tokens) - Z.of_nat l * 2 + 1)).

Definition spec_count_repetitions (tokens : list string) (i l : nat) : nat :=
  extend tokens (pattern_at tokens i l) i l 2 10 1.

End Cyclic.
Import Cyclic.

(* ================================================================== *)
(** * Summary statistics and the full run                              *)
(* ================================================================== *)

Module Analyzer.

(** A cell of the value column of the summary. *)
Inductive value : Type :=
| VInt (n : nat)
| VText (s : string)
| VTime (t : Timestamp)
| VRatio (q : Q).

Definition NA : value := VText "N/A".

Definition ts_ltb (a b : Timestamp) : bool :=
  date_ltb (ts_date a) (ts_date b) ||
  (date_eqb (ts_date a) (ts_date b) &&
   ((ts_hour a <? ts_hour b) ||
    ((ts_hour a =? ts_hour b) &&
     ((ts_minute a <? ts_minute b) ||
      ((ts_minute a =? ts_minute b) && (ts_second a <? ts_second b)))))).

(** [df['timestamp'].min()] and [.max()]: nulls are skipped, and the result
    is [NaT] ([None]) when nothing is left. *)
Definition ts_min (col : list (option Timestamp)) : option Timestamp :=
  match Series.dropna col with
  | [] => None
  | t :: r => Some (fold_left (fun m x => if ts_ltb x m then x else m) r t)
  end.

Definition ts_max (col : list (option Timestamp)) : option Timestamp :=
  match Series.dropna col with
  | [] => None
  | t :: r => Some (fold_left (fun m x => if ts_ltb m x then x else m) r t)
  end.

(** [t.strftime('%Y-%m-%d %H:%M')]; [NaT] does not support it and raises
    [ValueError]. *)
Definition strftime (t : option Timestamp) : result value :=
  match t with
  | Some t => Ok (VTime t)
  | None => Raise ValueError
  end.

(** [col.nunique()]. *)
Definition nunique (col : list string) : nat :=
  List.length (nodup string_dec col).

(** [self.df[name]]: [KeyError] when the frame has no such column. *)
Definition column {A} (df : DataFrame) (f : Event -> A) : result (list A) :=
  if has_columns df then Ok (map f df) else Raise KeyError.

(** The value column of the dictionary [summary_stats] built in
    [export_results]; its items are evaluated in order, and the first
    exception ends the evaluation. *)
Definition summary_stats (df : DataFrame) : result (list value) :=
  let present := has_columns df in
  let total := List.length df in
  sigs <- column df signature ;;
  let v_unique := VInt (nunique sigs) in
  v_start <- (if present then strftime (ts_min (map timestamp df))
              else Ok NA) ;;
  v_end <- (if present then strftime (ts_max (map timestamp df))
            else Ok NA) ;;
  v_hour <- (if present then h <- Series.mode0 (map hour df) ;; Ok (VInt h)
             else Ok NA) ;;
  let v_per_hour :=
    if present then VRatio (Z.of_nat total # 24) else NA in
  let v_days := if present then VInt (distinct_dates df) else NA in
  v_category <-
    (if present
     then c <- Series.mode0
                 (map (fun e => Some (fst (extract_detailed_threat_category
                                             (signature e)))) df) ;;
          Ok (VText c)
     else Ok NA) ;;
  v_signature <-
    (if present
     then s <- Series.mode0 (map (fun e => Some (signature e)) df) ;;
          Ok (VText s)
     else Ok NA) ;;
  v_ratio <- (if total =? 0 then Raise ZeroDivisionError
              else Ok (VRatio (Z.of_nat (nunique sigs) # Pos.of_nat total))) ;;
  Ok [ VInt total; v_unique; v_start; v_end; v_hour; v_per_hour; v_days;
       v_category; v_signature; v_ratio ].

(** [export_results]: the summary is written unless building it raised;
    the [except Exception] handler then only prints the error. *)
Inductive export_outcome : Type :=
| SummaryWritten (cells : list value)
| ExportFailed (e : exn).

Definition export_results (df : DataFrame) : export_outcome :=
  match summary_stats df with
  | Ok cells => SummaryWritten cells
  | Raise e => ExportFailed e
  end.

(** What [analyze_temporal_patterns] reports. *)
Record temporal_report : Type := mkTemporal
  { tr_hourly : Series.t nat;
    tr_most_active_hour : nat;
    tr_most_active_count : option nat;
    tr_daily : Series.t Date;
    tr_avg_per_day : option Q;
    tr_patterns : list line }.

(** [analyze_temporal_patterns]: returns at once when the frame has no
    [timestamp] column; it has no exception handler of its own. *)
Definition analyze_temporal_patterns (df : DataFrame)
  : result (option temporal_report) :=
  if negb (has_columns df) then Ok None
  else
    h <- most_active_hour df ;;
    Ok (Some {| tr_hourly := hourly_counts df;
                tr_most_active_hour := h;
                tr_most_active_count := most_active_count df;
                tr_daily := daily_counts df;
                tr_avg_per_day := avg_events_per_day df;
                tr_patterns :=
                  cyclic_patterns pattern_lengths_to_check
                                  (map signature df) |}).

(** [run_full_analysis] after loading: temporal analysis, then export. *)
Definition run_full_analysis (df : DataFrame)
  : result (option temporal_report * export_outcome) :=
  t <- analyze_temporal_patterns df ;;
  Ok (t, export_results df).

End Analyzer.
Import Analyzer.

(* ================================================================== *)
(** * Loading: the search for the events key                           *)
(* ================================================================== *)

Module Loader.

(** [str.lower()] on ASCII text; as for [upper], Python's mapping outside
    ASCII is the Unicode one and is not covered. *)
Definition lower_char (c : ascii) : ascii :=
  let n := nat_of_ascii c in
  if (65 <=? n) && (n <=? 90) then ascii_of_nat (n + 32) else c.

Fixpoint lower (s : string) : string :=
  match s with
  | EmptyString => EmptyString
  | String c r => String (lower_char c) (lower r)
  end.

(** [c.isspace()] on ASCII: tab to carriage return, the four separators
    0x1c-0x1f and the space.  Python also strips the blanks outside ASCII
    (U+00A0 and others), which the model does not cover. *)
Definition is_space (c : ascii) : bool :=
  let n := nat_of_ascii c in
  ((9 <=? n) && (n <=? 13)) || ((28 <=? n) && (n <=? 32)).

Fixpoint lstrip (s : string) : string :=
  match s with
  | EmptyString => EmptyString
  | String c r => if is_space c then lstrip r else s
  end.

Fixpoint rstrip (s : string) : string :=
  match s with
  | EmptyString => EmptyString
  | String c r =>
      match rstrip r with
      | EmptyString => if is_space c then EmptyString else String c EmptyString
      | r' => String c r'
      end
  end.

(** [s.strip()]. *)
Definition strip (s : string) : string := rstrip (lstrip s).

(** [for key in keys: if p(key): events_key = key; break], from
    [events_key = None]. *)
Fixpoint first_key (p : string -> bool) (keys : list string)
  : option string :=
  match keys with
  | [] => None
  | key :: rest => if p key then Some key else first_key p rest
  end.

(** The truth value of [events_key]: [None] and the empty text are
    false. *)
Definition truthy (events_key : option string) : bool :=
  match events_key with
  | Some (String _ _) => true
  | _ => false
  end.

Definition is_events (key : string) : bool :=
  String.eqb (lower (strip key)) "events".

Definition mentions_event (key : string) : bool :=
  "event" isin lower key.

(** The key search of [load_and_clean_data] over [raw_data.keys()]: first
    a key that is [events] up to surrounding blanks and case, else a key
    that contains [event]; [KeyError] when there is none. *)
Definition find_events_key (keys : list string) : result string :=
  let events_key := first_key is_events keys in
  let events_key :=
    if negb (truthy events_key) then first_key mentions_event keys
    else events_key in
  if negb (truthy events_key) then Raise KeyError
  else match events_key with
       | Some key => Ok key
       | None => Raise KeyError
       end.

(** Text made of ASCII characters only, on which [upper], [lower] and
    [strip] are Python's. *)
Definition is_ascii_char (c : ascii) : bool := nat_of_ascii c <? 128.

Fixpoint is_ascii (s : string) : bool :=
  match s with
  | EmptyString => true
  | String c r => is_ascii_char c && is_ascii r
  end.

End Loader.
Import Loader.

(* ================================================================== *)
(** * Console listings                                                 *)
(* ================================================================== *)

Module Console.

(** [s[:n] + "..." if len(s) > n else s]; lengths count characters, which
    on ASCII text are the bytes of the model. *)
Definition truncate (n : nat) (s : string) : string :=
  if n <? String.length s then (substring 0 n s ++ "...")%string else s.

(** [signature_display] of the top-10 listing, printed in a field of 60
    characters, and [sig_display] of the pattern listing. *)
Definition signature_display (signature : string) : string :=
  truncate 55 signature.
Definition sig_display (sig : string) : string := truncate 50 sig.

(** The hour listing of [analyze_temporal_patterns]: for each hour of
    [range(24)], the hour and its count when the count is positive. *)
Definition hour_lines (df : DataFrame) : list (nat * nat) :=
  flat_map (fun hour =>
              let count := Series.get hour 0 (hourly_counts df) in
              if 0 <? count then [(hour, count)] else [])
           (seq 0 24).

(** Row and column totals of the Date x Hour matrix. *)
Definition row_total (p : Pivot) (d : Date) : nat :=
  list_sum (map (fun h => cell p d h) (pv_columns p)).

Definition col_total (p : Pivot) (h : nat) : nat :=
  list_sum (map (fun d => cell p d h) (pv_index p)).

(** Reference count: the events of date [d]. *)
Definition events_on_date (d : Date) (df : DataFrame) : nat :=
  List.length
    (filter (fun e => match timestamp e with
                      | Some ts => date_eqb (ts_date ts) d
                      | None => false
                      end) df).

(** The lines the detector prints for "checking length l". *)
Definition is_checking (ln : line) : bool :=
  match ln with Checking _ => true | _ => false end.

(** What a printed line says about the search, for the configured
    [lengths] and the scanned [tokens]. *)
Definition line_holds (lengths : list nat) (tokens : list string)
  (ln : line) : Prop :=
  match ln with
  | Checking l => In l lengths
  | Found l i pattern =>
      In l lengths /\ find_repeat tokens l = Some i /\
      pattern = pattern_at tokens i l
  | Repeats l repetitions =>
      In l lengths /\
      exists i, find_repeat tokens l = Some i /\
                repetitions = count_repetitions tokens i l /\
                2 <= repetitions <= 9
  | NotFound l => In l lengths /\ find_repeat tokens l = None
  end.

Definition is_not_found (ln : line) : bool :=
  match ln with NotFound _ => true | _ => false end.

(** The fields of a timestamp in the order [ts_ltb] compares them. *)
Definition ts_tuple (t : Timestamp) : Date * (nat * (nat * nat)) :=
  (ts_date t, (ts_hour t, (ts_minute t, ts_second t))).

(** Number of entries of [col] equal to [s]. *)
Definition occurrences (s : string) (col : list string) : nat :=
  List.length (filter (String.eqb s) col).

(** The seventeen category pairs the classifier can return. *)
Definition category_pairs : list (string * string) :=
  [ ("MALWARE", "Trojan/Win.Jadtre"); ("MALWARE", "C&C Communication");
    ("MALWARE", "Malware Activity");
    ("EXPLOIT", "Privilege Escalation (Win32k)");
    ("EXPLOIT", "Remote Code Execution (Java)");
    ("EXPLOIT", "Buffer Overflow (Oracle)"); ("EXPLOIT", "Web Server Exploit");
    ("EXPLOIT", "Generic Exploit");
    ("NETWORK", "RPC Service Exploit"); ("NETWORK", "SMB Service Exploit");
    ("NETWORK", "Network Protocol Anomaly");
    ("INDICATOR", "Database Reconnaissance");
    ("INDICATOR", "Suspicious Activity");
    ("EXPLOIT", "Remote Code Execution"); ("EXPLOIT", "Privilege Escalation");
    ("EXPLOIT", "Buffer Overflow"); ("OTHER", "Uncategorized") ].

End Console.
Import Console.

(* ================================================================== *)
(** * Frames that lack a column                                        *)
(* ================================================================== *)

Module Frames.

(** [self.df] with the columns it may lack: the records of the input need
    not carry a [signature] or a [timestamp] key, and the code tests
    ['timestamp' in self.df.columns] and the like before it reads a
    column.  The derived columns [hour], [date] exist when [timestamp]
    does, and [threat_main_category] when [signature] does (it is added
    by [analyze_signature_distribution]).  A field of [rows] whose column
    is absent is not read. *)
Record Frame : Type := mkFrame
  { rows : list Event;
    has_signature : bool;
    has_timestamp : bool }.


(** The frame of records that all carry both keys. *)
Definition frame_of (df : DataFrame) : Frame :=
  {| rows := df;
     has_signature := has_columns df;
     has_timestamp := has_columns df |}.

(** The value column of [summary_stats] in [export_results], item by
    item, each with the guard the source gives it. *)
Definition summary_stats_frame (f : Frame) : result (list value) :=
  let df := rows f in
  let total := List.length df in
  sigs <- (if has_signature f then Ok (map signature df)
           else Raise KeyError) ;;
  let v_unique := VInt (nunique sigs) in
  v_start <- (if has_timestamp f then strftime (ts_min (map timestamp df))
              else Ok NA) ;;
  v_end <- (if has_timestamp f then strftime (ts_max (map timestamp df))
            else Ok NA) ;;
  v_hour <- (if has_timestamp f
             then h <- Series.mode0 (map hour df) ;; Ok (VInt h)
             else Ok NA) ;;
  let v_per_hour :=
    if has_timestamp f then VRatio (Z.of_nat total # 24) else NA in
  let v_days := if has_timestamp f then VInt (distinct_dates df) else NA in
  v_category <-
    (if has_signature f
     then c <- Series.mode0
                 (map (fun e => Some (fst (extract_detailed_threat_category
                                             (signature e)))) df) ;;
          Ok (VText c)
     else Ok NA) ;;
  v_signature <-
    (if has_signature f
     then s <- Series.mode0 (map (fun e => Some (signature e)) df) ;;
          Ok (VText s)
     else Ok NA) ;;
  v_ratio <- (if total =? 0 then Raise ZeroDivisionError
              else Ok (VRatio (Z.of_nat (nunique sigs) # Pos.of_nat total))) ;;
  Ok [ VInt total; v_unique; v_start; v_end; v_hour; v_per_hour; v_days;
       v_category; v_signature; v_ratio ].

(** [export_results]: an exception raised while the summary is built is
    caught by [except Exception], and no summary is written. *)
Definition export_results_frame (f : Frame) : export_outcome :=
  match summary_stats_frame f with
  | Ok cells => SummaryWritten cells
  | Raise e => ExportFailed e
  end.

(** [analyze_temporal_patterns]: returns at once without a [timestamp]
    column; otherwise the hour block ([idxmax]) comes before
    [self.df['signature'].tolist()], and nothing is caught. *)
Definition analyze_temporal_patterns_frame (f : Frame)
  : result (option temporal_report) :=
  if negb (has_timestamp f) then Ok None
  else
    let df := rows f in
    h <- most_active_hour df ;;
    signatures_list <- (if has_signature f then Ok (map signature df)
                        else Raise KeyError) ;;
    Ok (Some {| tr_hourly := hourly_counts df;
                tr_most_active_hour := h;
                tr_most_active_count := most_active_count df;
                tr_daily := daily_counts df;
                tr_avg_per_day := avg_events_per_day df;
                tr_patterns :=
                  cyclic_patterns pattern_lengths_to_check
                                  signatures_list |}).

(** [run_full_analysis] after loading: temporal analysis, then export. *)
Definition run_full_analysis_frame (f : Frame)
  : result (option temporal_report * export_outcome) :=
  t <- analyze_temporal_patterns_frame f ;;
  Ok (t, export_results_frame f).

End Frames.
Import Frames.

(* ################################################################## *)
(** * Properties                                                       *)
(* ################################################################## *)

(* ================================================================== *)
(** ** Text                                                            *)
(* ================================================================== *)

Lemma startswith_iff (n h : string) :
  startswith n h = true <-> exists b, h = (n ++ b)%string.
Proof.
  revert h; induction n as [|a n IH]; intros h; simpl.
  - split; [intros _; now exists h | reflexivity].
  - destruct h as [|c h]; simpl.
    + split; [discriminate | intros [b Hb]; discriminate].
    + rewrite andb_true_iff, Ascii.eqb_eq, IH. split.
      * intros [-> [b ->]]. now exists b.
      * intros [b Hb]. injection Hb as -> ->.
        split; [reflexivity | now exists b].
Qed.

(** [contains] is substring membership. *)
Lemma contains_iff (n h : string) :
  contains n h = true <-> exists a b, h = (a ++ n ++ b)%string.
Proof.
  induction h as [|c h IH]; simpl.
  - rewrite orb_false_r, startswith_iff. split.
    + intros [b Hb]. now exists "", b.
    + intros [a [b Hab]].
      destruct a; simpl in Hab; [now exists b | discriminate].
  - rewrite orb_true_iff, startswith_iff, IH. split.
    + intros [[b Hb] | [a [b Hab]]].
      * now exists "", b.
      * exists (String c a), b. simpl. now rewrite Hab.
    + intros [a [b Hab]]. destruct a as [|c' a]; simpl in Hab.
      * left. now exists b.
      * right. injection Hab as _ ->. now exists a, b.
Qed.

Lemma upper_app (a b : string) :
  upper (a ++ b)%string = (upper a ++ upper b)%string.
Proof. induction a; simpl; [reflexivity | now rewrite IHa]. Qed.

(** A keyword written in capitals that occurs in the raw signature still
    occurs after uppercasing. *)
Lemma contains_upper (k s : string) :
  upper k = k -> contains k s = true -> contains k (upper s) = true.
Proof.
  intros Hk. rewrite !contains_iff. intros [a [b ->]].
  exists (upper a), (upper b). now rewrite !upper_app, Hk.
Qed.

(* ================================================================== *)
(** ** Threat classifier                                               *)
(* ================================================================== *)

(** Splits a hypothesis [any_of [k1; ...; kn] s = false] into one equation
    per keyword. *)
Ltac split_any_of H :=
  unfold any_of, recognized_keywords, higher_priority_than_bo in H;
  simpl existsb in H;
  repeat match type of H with
         | (_ || _) = false =>
             let H1 := fresh "Hk" in
             apply orb_false_iff in H; destruct H as [H1 H]
         end.

(** [any_of kws s = false] says that no keyword of [kws] is a substring
    of [s]. *)
Lemma any_of_false_iff (kws : list string) (s : string) :
  any_of kws s = false <->
  forall k, In k kws -> ~ exists a b, s = (a ++ k ++ b)%string.
Proof.
  unfold any_of. rewrite <- not_true_iff_false, existsb_exists. split.
  - intros Hn k Hk Hsub. apply Hn. exists k. split; [exact Hk|].
    now apply contains_iff.
  - intros Hall [k [Hk Hc]]. apply (Hall k Hk). now apply contains_iff.
Qed.

(** The [if]/[elif] chain is the first-match reading of [taxonomy]. *)
Lemma classifier_is_first_match (signature : string) :
  extract_detailed_threat_category signature
  = first_match taxonomy (upper signature).
Proof.
  unfold extract_detailed_threat_category, taxonomy, first_match, any_of,
    fallback; cbn [applies main_label detail_of existsb].
  repeat match goal with
         | |- (if ?b then _ else _) = _ =>
             match b with
             | context [contains ?k ?s] =>
                 destruct (contains k s);
                 cbn [orb]; try reflexivity
             end
         end.
Qed.

(** The main category is always one of the five labels of the chain. *)
Lemma classifier_main_labels (signature : string) :
  In (fst (extract_detailed_threat_category signature))
     ["MALWARE"; "EXPLOIT"; "NETWORK"; "INDICATOR"; "OTHER"].
Proof.
  unfold extract_detailed_threat_category.
  repeat match goal with
         | |- context [if ?b then (_, _) else _] => destruct b
         end; simpl; tauto.
Qed.

(** C3.  A signature whose uppercased text contains none of the keywords
    tested by the classifier is classified (OTHER, Uncategorized); and for
    every signature the classifier returns a pair, whose main category is
    one of its five labels. *)
Theorem unmatched_signature_is_other (signature : string) :
  (exists main detail,
      extract_detailed_threat_category signature = (main, detail) /\
      In main ["MALWARE"; "EXPLOIT"; "NETWORK"; "INDICATOR"; "OTHER"]) /\
  (any_of recognized_keywords (upper signature) = false ->
   extract_detailed_threat_category signature = ("OTHER", "Uncategorized")).
Proof.
  split.
  - pose proof (classifier_main_labels signature) as Hin.
    destruct (extract_detailed_threat_category signature) as [m d].
    now exists m, d.
  - intros H. split_any_of H.
    unfold extract_detailed_threat_category.
    repeat match goal with
           | Hk : ?b = false |- context [?b] => rewrite Hk
           end.
    reflexivity.
Qed.

Lemma unmatched_signature_is_other_witness :
  any_of recognized_keywords (upper "ET SCAN Nmap ping sweep") = false /\
  extract_detailed_threat_category "ET SCAN Nmap ping sweep"
  = ("OTHER", "Uncategorized").
Proof.
  split.
  - reflexivity.
  - apply (unmatched_signature_is_other "ET SCAN Nmap ping sweep").
    reflexivity.
Defined.

(** C4, as stated, fails: the text below contains both EXPLOIT and RCE
    (inside SOURCE), yet the MALWARE-CNC rule, which comes first, decides. *)
Lemma exploit_and_rce_not_always_exploit_branch :
  let signature := "MALWARE-CNC exploit kit outbound source" in
  contains "EXPLOIT" (upper signature) = true /\
  contains "RCE" (upper signature) = true /\
  extract_detailed_threat_category signature
  = ("MALWARE", "Malware Activity") /\
  extract_detailed_threat_category signature
  <> ("EXPLOIT", exploit_detail (upper signature)).
Proof. repeat split; try reflexivity. vm_compute. discriminate. Qed.

(** C4 (amended).  The chain is a first-match reading of the ordered rule
    list; a signature whose uppercased text contains both EXPLOIT and RCE,
    and not MALWARE-CNC, gets the result of the EXPLOIT branch, which is
    never the result of the RCE rule. *)
Theorem exploit_rule_precedes_rce (signature : string) :
  contains "EXPLOIT" (upper signature) = true ->
  contains "RCE" (upper signature) = true ->
  contains "MALWARE-CNC" (upper signature) = false ->
  extract_detailed_threat_category signature
  = first_match taxonomy (upper signature) /\
  extract_detailed_threat_category signature
  = ("EXPLOIT", exploit_detail (upper signature)) /\
  extract_detailed_threat_category signature
  <> ("EXPLOIT", "Remote Code Execution").
Proof.
  intros He _ Hm. split; [apply classifier_is_first_match|].
  unfold extract_detailed_threat_category. rewrite Hm, He.
  split; [reflexivity|].
  unfold exploit_detail.
  repeat match goal with
         | |- context [if ?b then _ else _] => destruct b
         end; discriminate.
Qed.

Lemma exploit_rule_precedes_rce_witness :
  let signature := "EXPLOIT Oracle 9i RCE attempt" in
  contains "EXPLOIT" (upper signature) = true /\
  contains "RCE" (upper signature) = true /\
  contains "MALWARE-CNC" (upper signature) = false /\
  extract_detailed_threat_category signature
  = ("EXPLOIT", "Buffer Overflow (Oracle)").
Proof.
  intros signature.
  destruct (exploit_rule_precedes_rce signature eq_refl eq_refl eq_refl)
    as [_ [E _]].
  do 3 (split; [reflexivity|]).
  rewrite E. reflexivity.
Defined.

(** C10.  A signature whose uppercased text contains the two letters BO
    anywhere, and none of the keywords of the earlier rules, is classified
    (EXPLOIT, Buffer Overflow), not (OTHER, Uncategorized). *)
Theorem bo_substring_is_buffer_overflow (signature : string) :
  contains "BO" (upper signature) = true ->
  any_of higher_priority_than_bo (upper signature) = false ->
  extract_detailed_threat_category signature = ("EXPLOIT", "Buffer Overflow") /\
  extract_detailed_threat_category signature <> ("OTHER", "Uncategorized").
Proof.
  intros Hbo H. split_any_of H.
  assert (E : extract_detailed_threat_category signature
              = ("EXPLOIT", "Buffer Overflow")).
  { unfold extract_detailed_threat_category.
    repeat match goal with
           | Hk : ?b = false |- context [?b] => rewrite Hk
           end.
    rewrite Hbo, orb_true_r. reflexivity. }
  split; [exact E | rewrite E; discriminate].
Qed.

Lemma bo_substring_is_buffer_overflow_witness :
  contains "BO" (upper "Robot crawler detected") = true /\
  extract_detailed_threat_category "Robot crawler detected"
  = ("EXPLOIT", "Buffer Overflow").
Proof.
  split; [reflexivity|].
  apply (bo_substring_is_buffer_overflow "Robot crawler detected");
    reflexivity.
Defined.

(* ================================================================== *)
(** ** Index-sorted count series                                       *)
(* ================================================================== *)

#[export] Instance nat_OrderedLaws : OrderedLaws nat.
Proof.
  split; simpl.
  - apply Nat.eqb_eq.
  - apply Nat.ltb_irrefl.
  - intros a b c. rewrite !Nat.ltb_lt. lia.
  - intros a b. rewrite Nat.ltb_ge, Nat.eqb_neq, Nat.ltb_lt. lia.
Qed.

Lemma date_eqb_eq (a b : Date) : date_eqb a b = true <-> a = b.
Proof.
  destruct a as [y m d], b as [y' m' d']; unfold date_eqb; simpl.
  rewrite !andb_true_iff, !Nat.eqb_eq. split.
  - intros [[-> ->] ->]. reflexivity.
  - intros E. injection E as -> -> ->. auto.
Qed.

(** [date_ltb] as a proposition over the three fields. *)
Lemma date_ltb_lt (a b : Date) :
  date_ltb a b = true <->
  year a < year b \/
  (year a = year b /\
   (month a < month b \/ (month a = month b /\ day a < day b))).
Proof.
  unfold date_ltb.
  rewrite !orb_true_iff, !andb_true_iff, !orb_true_iff, !andb_true_iff,
    !Nat.ltb_lt, !Nat.eqb_eq.
  tauto.
Qed.

#[export] Instance Date_OrderedLaws : OrderedLaws Date.
Proof.
  split; simpl.
  - apply date_eqb_eq.
  - intros a. apply not_true_is_false. rewrite date_ltb_lt. lia.
  - intros a b c. rewrite !date_ltb_lt. lia.
  - intros a b Hlt Heq. apply not_true_iff_false in Hlt, Heq.
    rewrite date_ltb_lt in *. rewrite date_eqb_eq in Heq.
    assert (year a <> year b \/ month a <> month b \/ day a <> day b).
    { destruct a, b; simpl in *.
      destruct (Nat.eq_dec year0 year1); [|auto].
      destruct (Nat.eq_dec month0 month1); [|auto].
      destruct (Nat.eq_dec day0 day1); [|auto].
      subst. now contradict Heq. }
    lia.
Qed.

#[export] Instance pair_OrderedLaws {A B}
  `{OrderedLaws A} `{OrderedLaws B} : OrderedLaws (A * B).
Proof.
  split; simpl.
  - intros [a b] [a' b']; simpl.
    rewrite andb_true_iff, !keqb_eq. split.
    + intros [-> ->]. reflexivity.
    + intros E. injection E as -> ->. auto.
  - intros [a b]; simpl.
    rewrite !kltb_irrefl, andb_false_r. reflexivity.
  - intros [a1 b1] [a2 b2] [a3 b3]; simpl.
    rewrite !orb_true_iff, !andb_true_iff, !keqb_eq.
    intros [L1 | [-> L1]] [L2 | [-> L2]].
    + left. eapply kltb_trans; eassumption.
    + now left.
    + now left.
    + right. split; [reflexivity | eapply kltb_trans; eassumption].
  - intros [a1 b1] [a2 b2]; simpl.
    rewrite orb_false_iff, andb_false_iff. intros [L1 L2] E.
    destruct (keqb a1 a2) eqn:Ea.
    + apply keqb_eq in Ea. subst a2.
      simpl in E. destruct L2 as [L2 | L2]; [discriminate|].
      assert (Ea : keqb a1 a1 = true) by now apply keqb_eq.
      rewrite Ea, (kltb_total _ _ L2 E). simpl. apply orb_true_r.
    + now rewrite (kltb_total _ _ L1 Ea).
Qed.

Section SeriesFacts.
Context {K : Type} `{OrderedLaws K}.

Lemma keqb_refl (a : K) : keqb a a = true.
Proof. now apply keqb_eq. Qed.

Lemma keqb_neq (a b : K) : keqb a b = false <-> a <> b.
Proof. rewrite <- keqb_eq. symmetry. apply not_true_iff_false. Qed.

Lemma key_lt_neq (a b : K) : Series.key_lt a b -> a <> b.
Proof.
  unfold Series.key_lt. intros L ->. rewrite kltb_irrefl in L. discriminate.
Qed.

Lemma bump_sum (k : K) (s : Series.t K) :
  Series.sum (Series.bump k s) = S (Series.sum s).
Proof.
  unfold Series.sum, Series.values.
  induction s as [|[k' c] r IH]; simpl; [reflexivity|].
  destruct (keqb k k'); simpl; [reflexivity|].
  destruct (kltb k k'); simpl; [reflexivity|].
  rewrite IH. lia.
Qed.

Lemma bump_index_In (x k : K) (s : Series.t K) :
  In x (Series.index (Series.bump k s)) <-> x = k \/ In x (Series.index s).
Proof.
  unfold Series.index.
  induction s as [|[k' c] r IH]; simpl.
  - intuition.
  - destruct (keqb k k') eqn:E; simpl.
    + apply keqb_eq in E. subst. intuition.
    + destruct (kltb k k'); simpl; [intuition|].
      rewrite IH. intuition.
Qed.

Lemma bump_ascending (k : K) (s : Series.t K) :
  Series.ascending s -> Series.ascending (Series.bump k s).
Proof.
  unfold Series.ascending.
  induction s as [|[k' c] r IH]; simpl; intros Hs.
  - repeat constructor.
  - apply StronglySorted_inv in Hs. destruct Hs as [Hr Hall].
    destruct (keqb k k') eqn:E; simpl.
    + now constructor.
    + destruct (kltb k k') eqn:L; simpl.
      * constructor; [now constructor|].
        constructor; [exact L|].
        eapply Forall_impl; [|exact Hall].
        intros x Hx. eapply kltb_trans; eassumption.
      * constructor; [now apply IH|].
        apply Forall_forall. intros x Hx.
        apply (bump_index_In x k r) in Hx. destruct Hx as [-> | Hx].
        -- unfold Series.key_lt. now apply kltb_total.
        -- rewrite Forall_forall in Hall. now apply Hall.
Qed.

(** A key below the whole index is not counted. *)
Lemma get_below (k : K) (s : Series.t K) :
  Forall (Series.key_lt k) (Series.index s) -> Series.get k 0 s = 0.
Proof.
  induction s as [|[k' c] r IH]; simpl; intros Hall; [reflexivity|].
  apply Forall_cons_iff in Hall. destruct Hall as [L Hall].
  apply key_lt_neq, keqb_neq in L. rewrite L. now apply IH.
Qed.

Lemma get_bump (k k' : K) (s : Series.t K) :
  Series.ascending s ->
  Series.get k 0 (Series.bump k' s)
  = (if keqb k k' then 1 else 0) + Series.get k 0 s.
Proof.
  unfold Series.ascending.
  induction s as [|[k1 c] r IH]; simpl; intros Hs.
  - destruct (keqb k k'); reflexivity.
  - apply StronglySorted_inv in Hs. destruct Hs as [Hr Hall].
    destruct (keqb k' k1) eqn:E1; simpl.
    + apply keqb_eq in E1. subst k1.
      destruct (keqb k k'); reflexivity.
    + destruct (kltb k' k1) eqn:L; simpl.
      * destruct (keqb k k') eqn:E; [|reflexivity].
        apply keqb_eq in E. subst k'. rewrite E1.
        rewrite get_below; [reflexivity|].
        eapply Forall_impl; [|exact Hall].
        intros x Hx. eapply kltb_trans; eassumption.
      * destruct (keqb k k1) eqn:E.
        -- apply keqb_eq in E. subst k1.
           assert (E' : keqb k k' = false).
           { apply keqb_neq. intros ->. rewrite keqb_refl in E1.
             discriminate. }
           now rewrite E'.
        -- now apply IH.
Qed.

(** *** [value_counts().sort_index()] *)

Lemma fold_bump_ascending (ks : list K) :
  Series.ascending (fold_right Series.bump [] ks).
Proof.
  induction ks as [|k ks IH]; simpl.
  - constructor.
  - now apply bump_ascending.
Qed.

Lemma value_counts_ascending (col : list (option K)) :
  Series.ascending (Series.value_counts_sorted col).
Proof. apply fold_bump_ascending. Qed.

Lemma value_counts_sum (col : list (option K)) :
  Series.sum (Series.value_counts_sorted col)
  = List.length (Series.dropna col).
Proof.
  unfold Series.value_counts_sorted.
  induction (Series.dropna col) as [|k ks IH]; simpl; [reflexivity|].
  now rewrite bump_sum, IH.
Qed.

Lemma value_counts_index_In (x : K) (col : list (option K)) :
  In x (Series.index (Series.value_counts_sorted col))
  <-> In x (Series.dropna col).
Proof.
  unfold Series.value_counts_sorted.
  induction (Series.dropna col) as [|k ks IH]; simpl; [tauto|].
  rewrite bump_index_In, IH. intuition.
Qed.

(** The count stored under [k] is the number of entries equal to [k]. *)
Lemma value_counts_get (k : K) (col : list (option K)) :
  Series.get k 0 (Series.value_counts_sorted col)
  = List.length (filter (fun x => keqb k x) (Series.dropna col)).
Proof.
  unfold Series.value_counts_sorted.
  induction (Series.dropna col) as [|x ks IH]; simpl; [reflexivity|].
  rewrite get_bump by apply fold_bump_ascending.
  rewrite IH. destruct (keqb k x); reflexivity.
Qed.

Lemma ascending_NoDup (s : Series.t K) :
  Series.ascending s -> NoDup (Series.index s).
Proof.
  unfold Series.ascending.
  induction 1 as [|a l Hl IH Hall]; constructor; [|exact IH].
  intros Hin. rewrite Forall_forall in Hall.
  apply Hall in Hin. now apply key_lt_neq in Hin.
Qed.

(** *** [idxmax] and [max] *)

Lemma argmax_from_split (best : K * nat) (r : Series.t K) :
  exists l1 l2,
    best :: r = l1 ++ Series.argmax_from best r :: l2 /\
    Forall (fun y => snd y < snd (Series.argmax_from best r)) l1 /\
    Forall (fun y => snd y <= snd (Series.argmax_from best r)) l2.
Proof.
  revert best. induction r as [|[k c] r IH]; intros best; simpl.
  - exists [], []. repeat split; constructor.
  - destruct (snd best <? c) eqn:L.
    + apply Nat.ltb_lt in L.
      destruct (IH (k, c)) as (l1 & l2 & E & H1 & H2).
      exists (best :: l1), l2. repeat split.
      * simpl. now rewrite E.
      * constructor; [|exact H1].
        destruct l1 as [|y l1]; simpl in E.
        -- injection E as E _. rewrite <- E. exact L.
        -- injection E as E _. subst y.
           apply Forall_cons_iff in H1. simpl in H1. lia.
      * exact H2.
    + apply Nat.ltb_ge in L.
      destruct (IH best) as (l1 & l2 & E & H1 & H2).
      destruct l1 as [|y l1]; simpl in E.
      * injection E as E E'. exists [], ((k, c) :: l2). repeat split.
        -- simpl. now rewrite <- E, <- E'.
        -- constructor.
        -- constructor; [rewrite <- E; exact L | exact H2].
      * injection E as E E'. subst y.
        exists (best :: (k, c) :: l1), l2. repeat split.
        -- simpl. do 2 f_equal. exact E'.
        -- apply Forall_cons_iff in H1. destruct H1 as [Hb H1].
           repeat constructor; simpl; [exact Hb | lia | exact H1].
        -- exact H2.
Qed.

Lemma get_In (k : K) (c d : nat) (s : Series.t K) :
  Series.ascending s -> In (k, c) s -> Series.get k d s = c.
Proof.
  unfold Series.ascending.
  induction s as [|[k1 c1] r IH]; simpl; intros Hs Hin; [contradiction|].
  apply StronglySorted_inv in Hs. destruct Hs as [Hr Hall].
  destruct Hin as [E | Hin].
  - injection E as -> ->. now rewrite keqb_refl.
  - assert (L : Series.key_lt k1 k).
    { rewrite Forall_forall in Hall. apply Hall.
      change k with (fst (k, c)). now apply in_map. }
    apply key_lt_neq in L.
    assert (E : keqb k k1 = false) by (apply keqb_neq; congruence).
    rewrite E. now apply IH.
Qed.

Lemma get_notin (k : K) (d : nat) (s : Series.t K) :
  ~ In k (Series.index s) -> Series.get k d s = d.
Proof.
  induction s as [|[k1 c1] r IH]; simpl; intros Hn; [reflexivity|].
  destruct (keqb k k1) eqn:E.
  - apply keqb_eq in E. subst. tauto.
  - apply IH. tauto.
Qed.

Lemma ascending_split (l1 l2 : Series.t K) (m : K * nat) :
  Series.ascending (l1 ++ m :: l2) ->
  Forall (fun y => Series.key_lt (fst y) (fst m)) l1 /\
  Forall (fun y => Series.key_lt (fst m) (fst y)) l2.
Proof.
  unfold Series.ascending, Series.index.
  induction l1 as [|a l1 IH]; simpl; intros Hs;
    apply StronglySorted_inv in Hs; destruct Hs as [Hr Hall].
  - split; [constructor|].
    apply Forall_forall. intros y Hy. rewrite Forall_forall in Hall.
    apply Hall. now apply in_map.
  - destruct (IH Hr) as [H1 H2]. split; [|exact H2].
    constructor; [|exact H1].
    rewrite Forall_forall in Hall. apply Hall.
    apply in_map, in_elt.
Qed.

Lemma index_In_inv (k : K) (s : Series.t K) :
  In k (Series.index s) -> exists c, In (k, c) s.
Proof.
  unfold Series.index. rewrite in_map_iff.
  intros [[k' c] [E Hin]]. simpl in E. subst. now exists c.
Qed.

Lemma key_In_dec (k : K) (l : list K) : In k l \/ ~ In k l.
Proof.
  induction l as [|a l IHl].
  - right. intros [].
  - destruct (keqb k a) eqn:Ea.
    + left. left. symmetry. now apply keqb_eq.
    + apply keqb_neq in Ea. simpl. intuition congruence.
Qed.

(** On an Series.ascending series with positive counts, [argmax_from] returns
    the entry with the largest count, and of several such the one with the
    least key. *)
Lemma argmax_from_spec (x : K * nat) (r : Series.t K) :
  Series.ascending (x :: r) ->
  Forall (fun y => 0 < snd y) (x :: r) ->
  let m := Series.argmax_from x r in
  Series.get (fst m) 0 (x :: r) = snd m /\
  (forall k, Series.get k 0 (x :: r) <= snd m) /\
  (forall k, Series.key_lt k (fst m) -> Series.get k 0 (x :: r) < snd m).
Proof.
  intros Hasc Hpos m.
  destruct (argmax_from_split x r) as (l1 & l2 & E & H1 & H2).
  fold m in E, H1, H2. revert Hasc Hpos. rewrite E. intros Hasc Hpos.
  destruct (ascending_split _ _ _ Hasc) as [Hlo Hhi].
  rewrite Forall_forall in H1, H2, Hlo, Hhi, Hpos.
  assert (Hm : In m (l1 ++ m :: l2)) by apply in_elt.
  assert (Hcases : forall k c, In (k, c) (l1 ++ m :: l2) ->
            (In (k, c) l1 \/ (k, c) = m \/ In (k, c) l2)).
  { intros k c Hin. apply in_app_or in Hin. simpl in Hin.
    destruct Hin as [?|[?|?]]; auto. }
  repeat split.
  - apply get_In; [exact Hasc|]. now destruct m.
  - intros k.
    destruct (keqb k (fst m)) eqn:Ek.
    + apply keqb_eq in Ek. subst k.
      rewrite (get_In (fst m) (snd m)); [lia | exact Hasc | now destruct m].
    + assert (Hdec : In k (Series.index (l1 ++ m :: l2)) \/
                     ~ In k (Series.index (l1 ++ m :: l2))).
      { apply key_In_dec. }
      destruct Hdec as [Hin | Hn]; [|rewrite get_notin by exact Hn; lia].
      apply index_In_inv in Hin. destruct Hin as [c Hin].
      rewrite (get_In k c) by assumption.
      destruct (Hcases k c Hin) as [Hc | [Hc | Hc]].
      * apply H1 in Hc. simpl in Hc. lia.
      * rewrite <- Hc. simpl. lia.
      * apply H2 in Hc. simpl in Hc. exact Hc.
  - intros k Lk.
    assert (Hdec : In k (Series.index (l1 ++ m :: l2)) \/
                   ~ In k (Series.index (l1 ++ m :: l2))).
    { apply key_In_dec. }
    destruct Hdec as [Hin | Hn].
    + apply index_In_inv in Hin. destruct Hin as [c Hin].
      rewrite (get_In k c) by assumption.
      destruct (Hcases k c Hin) as [Hc | [Hc | Hc]].
      * apply H1 in Hc. exact Hc.
      * rewrite <- Hc in Lk. simpl in Lk. now apply key_lt_neq in Lk.
      * apply Hhi in Hc. simpl in Hc.
        pose proof (kltb_trans _ _ _ Lk Hc) as Hkk.
        rewrite kltb_irrefl in Hkk. discriminate.
    + rewrite get_notin by exact Hn. now apply Hpos.
Qed.

Lemma bump_positive (k : K) (s : Series.t K) :
  Forall (fun y => 0 < snd y) s ->
  Forall (fun y => 0 < snd y) (Series.bump k s).
Proof.
  induction s as [|[k' c] r IH]; simpl; intros Hs.
  - repeat constructor.
  - apply Forall_cons_iff in Hs. destruct Hs as [Hc Hr].
    destruct (keqb k k'); [constructor; simpl; [lia | exact Hr]|].
    destruct (kltb k k').
    + repeat constructor; simpl; assumption.
    + constructor; [exact Hc | now apply IH].
Qed.

Lemma value_counts_positive (col : list (option K)) :
  Forall (fun y => 0 < snd y) (Series.value_counts_sorted col).
Proof.
  unfold Series.value_counts_sorted.
  induction (Series.dropna col) as [|k ks IH]; simpl.
  - constructor.
  - now apply bump_positive.
Qed.

Lemma value_counts_nonempty (col : list (option K)) :
  Series.dropna col <> [] -> Series.value_counts_sorted col <> [].
Proof.
  intros Hne E.
  pose proof (value_counts_sum col) as Hs. rewrite E in Hs.
  destruct (Series.dropna col); [congruence | discriminate].
Qed.

End SeriesFacts.

(* ================================================================== *)
(** ** Temporal aggregator                                             *)
(* ================================================================== *)

Lemma dropna_hour_length (df : DataFrame) :
  List.length (Series.dropna (map hour df)) = total_valid_events df.
Proof.
  unfold total_valid_events.
  induction df as [|[s [ts|]] df IH]; simpl; auto.
Qed.

Lemma dropna_date_length (df : DataFrame) :
  List.length (Series.dropna (map date df)) = total_valid_events df.
Proof.
  unfold total_valid_events.
  induction df as [|[s [ts|]] df IH]; simpl; auto.
Qed.

(** The hour histogram stores, under [h], the number of events of hour
    [h]. *)
Lemma hourly_counts_get (h : nat) (df : DataFrame) :
  Series.get h 0 (hourly_counts df) = events_in_hour h df.
Proof.
  unfold hourly_counts, events_in_hour. rewrite value_counts_get.
  induction df as [|[s [ts|]] df IH]; simpl; auto.
  unfold hour at 2; simpl. rewrite (Nat.eqb_sym (ts_hour ts) h).
  destruct (h =? ts_hour ts); simpl; auto.
Qed.

(** The date histogram has one entry per distinct date. *)
Lemma daily_counts_length (df : DataFrame) :
  List.length (daily_counts df) = distinct_dates df.
Proof.
  unfold daily_counts, distinct_dates.
  rewrite <- (length_map fst).
  apply Permutation_length, NoDup_Permutation.
  - apply (ascending_NoDup _ (value_counts_ascending _)).
  - apply NoDup_nodup.
  - intros d. rewrite nodup_In. apply value_counts_index_In.
Qed.

(** C6.  The counts of the hour histogram sum to the number of events
    with a valid timestamp, and so do the counts of the date histogram;
    the mean number of events per day is that total over the number of
    distinct dates (and undefined when there is no date at all). *)
Theorem histograms_sum_to_valid_total (df : DataFrame) :
  Series.sum (hourly_counts df) = total_valid_events df /\
  Series.sum (daily_counts df) = total_valid_events df /\
  avg_events_per_day df
  = (if distinct_dates df =? 0 then None
     else Some (Z.of_nat (total_valid_events df)
                # Pos.of_nat (distinct_dates df))).
Proof.
  assert (Hd : Series.sum (daily_counts df) = total_valid_events df).
  { unfold daily_counts. now rewrite value_counts_sum, dropna_date_length. }
  split; [|split].
  - unfold hourly_counts. now rewrite value_counts_sum, dropna_hour_length.
  - exact Hd.
  - unfold avg_events_per_day, Series.mean.
    rewrite <- daily_counts_length, <- Hd.
    destruct (daily_counts df); reflexivity.
Qed.

(** C8.  With at least one valid timestamp, the most active hour exists,
    carries the largest hourly count, and is the lowest of the hours that
    carry it. *)
Theorem most_active_hour_is_lowest_argmax (df : DataFrame) :
  0 < total_valid_events df ->
  exists h,
    most_active_hour df = Ok h /\
    most_active_count df = Some (events_in_hour h df) /\
    (forall h', events_in_hour h' df <= events_in_hour h df) /\
    (forall h', events_in_hour h' df = events_in_hour h df -> h <= h').
Proof.
  intros Hpos.
  unfold most_active_hour, most_active_count, Series.idxmax, Series.max.
  pose proof (value_counts_ascending (map hour df)) as Hasc.
  pose proof (value_counts_positive (map hour df)) as Hcnt.
  assert (Hne : hourly_counts df <> []).
  { apply value_counts_nonempty. rewrite <- dropna_hour_length in Hpos.
    destruct (Series.dropna (map hour df)); [inversion Hpos | discriminate]. }
  pose proof (fun h => hourly_counts_get h df) as Hget.
  fold (hourly_counts df) in Hasc, Hcnt.
  destruct (hourly_counts df) as [|x r]; [congruence|].
  destruct (argmax_from_spec x r Hasc Hcnt) as (Hm & Hmax & Hfirst).
  exists (fst (Series.argmax_from x r)).
  rewrite <- !Hget, Hm. repeat split.
  - intros h'. rewrite <- Hget. apply Hmax.
  - intros h' E. rewrite <- Hget in E.
    destruct (Nat.le_gt_cases (fst (Series.argmax_from x r)) h') as [|L];
      [assumption|].
    apply Nat.ltb_lt in L. apply Hfirst in L. lia.
Qed.

Lemma most_active_hour_is_lowest_argmax_witness :
  let at_hour h :=
    mkEvent "ET SCAN" (Some (mkTimestamp (mkDate 2024 1 15) h 0 0)) in
  let df :=
    [at_hour 14; at_hour 9; mkEvent "ET SCAN" None; at_hour 14; at_hour 9] in
  0 < total_valid_events df /\
  exists h,
    most_active_hour df = Ok h /\
    most_active_count df = Some (events_in_hour h df) /\
    (forall h', events_in_hour h' df <= events_in_hour h df) /\
    (forall h', events_in_hour h' df = events_in_hour h df -> h <= h').
Proof.
  intros at_hour df.
  assert (Hv : 0 < total_valid_events df) by (vm_compute; lia).
  split; [exact Hv|].
  exact (most_active_hour_is_lowest_argmax df Hv).
Defined.

(* ================================================================== *)
(** ** Date x Hour matrix                                              *)
(* ================================================================== *)

Section GridFacts.
Context {A B : Type}.

Lemma list_sum_map_plus {X} (f g : X -> nat) (l : list X) :
  list_sum (map (fun x => f x + g x) l)
  = list_sum (map f l) + list_sum (map g l).
Proof. induction l; simpl; lia. Qed.

Lemma list_sum_map_ext {X} (f g : X -> nat) (l : list X) :
  (forall x, In x l -> f x = g x) ->
  list_sum (map f l) = list_sum (map g l).
Proof.
  induction l as [|a l IH]; simpl; intros E; [reflexivity|].
  rewrite (E a) by now left. rewrite IH; [reflexivity|].
  intros x Hx. apply E. now right.
Qed.

Lemma list_sum_map_zero {X} (l : list X) :
  list_sum (map (fun _ => 0) l) = 0.
Proof. induction l; simpl; auto. Qed.

Lemma grid_sum_plus (f g : A -> B -> nat) rows cols :
  grid_sum (fun d h => f d h + g d h) rows cols
  = grid_sum f rows cols + grid_sum g rows cols.
Proof.
  unfold grid_sum. rewrite <- list_sum_map_plus.
  apply list_sum_map_ext. intros d _. apply list_sum_map_plus.
Qed.

End GridFacts.

Section IndicatorFacts.
Context {K : Type} `{OrderedLaws K}.

(** Over labels without repetition, exactly one label equals a listed
    key. *)
Lemma indicator_sum (a : K) (l : list K) :
  NoDup l -> In a l ->
  list_sum (map (fun x => if keqb x a then 1 else 0) l) = 1.
Proof.
  induction 1 as [|x l Hx Hl IH]; simpl; intros Hin; [contradiction|].
  destruct (keqb x a) eqn:E.
  - apply keqb_eq in E. subst x.
    rewrite (list_sum_map_ext _ (fun _ => 0)).
    + now rewrite list_sum_map_zero.
    + intros y Hy. destruct (keqb y a) eqn:E'; [|reflexivity].
      apply keqb_eq in E'. subst. contradiction.
  - destruct Hin as [-> | Hin]; [now rewrite keqb_refl in E|].
    now rewrite IH.
Qed.

Lemma locate_map {V} (f : K -> V) (k : K) (labels : list K) :
  Heatmap.locate k labels (map f labels)
  = if existsb (keqb k) labels then Some (f k) else None.
Proof.
  induction labels as [|l labels IH]; simpl; [reflexivity|].
  destruct (keqb k l) eqn:E; simpl; [|exact IH].
  apply keqb_eq in E. now subst.
Qed.

Lemma existsb_keqb (k : K) (labels : list K) :
  existsb (keqb k) labels = true <-> In k labels.
Proof.
  rewrite existsb_exists. split.
  - intros [x [Hx E]]. apply keqb_eq in E. now subst.
  - intros Hin. exists k. split; [exact Hin | apply keqb_refl].
Qed.

Lemma dropna_map_Some (l : list K) : Series.dropna (map Some l) = l.
Proof. induction l; simpl; [reflexivity | now f_equal]. Qed.

Lemma level_In (x : K) (keys : list K) : In x (level keys) <-> In x keys.
Proof.
  unfold level. now rewrite value_counts_index_In, dropna_map_Some.
Qed.

Lemma level_ascending (keys : list K) :
  StronglySorted Series.key_lt (level keys).
Proof. apply (value_counts_ascending (map Some keys)). Qed.

Lemma level_NoDup (keys : list K) : NoDup (level keys).
Proof. apply (ascending_NoDup _ (value_counts_ascending (map Some keys))). Qed.

End IndicatorFacts.

(** Each stored pair of a listed key is counted once by the grid. *)
Lemma grid_sum_filter (rows : list Date) (cols : list nat)
  (l : list (Date * nat)) :
  NoDup rows -> NoDup cols ->
  (forall x, In x l -> In (fst x) rows /\ In (snd x) cols) ->
  grid_sum (fun d h => List.length (filter (fun x => keqb (d, h) x) l))
           rows cols
  = List.length l.
Proof.
  intros Hr Hc. induction l as [|[d0 h0] l IH]; intros Hin.
  - unfold grid_sum. simpl.
    rewrite (list_sum_map_ext _ (fun _ => 0)); [apply list_sum_map_zero|].
    intros d _. apply list_sum_map_zero.
  - destruct (Hin (d0, h0) (or_introl eq_refl)) as [Hd0 Hh0]. simpl in Hd0, Hh0.
    transitivity
      (grid_sum (fun d h =>
                   (if keqb d d0 && keqb h h0 then 1 else 0)
                   + List.length (filter (fun x => keqb (d, h) x) l))
                rows cols).
    + unfold grid_sum. apply list_sum_map_ext. intros d _.
      apply list_sum_map_ext. intros h _.
      cbn [filter]. change (keqb (d, h) (d0, h0)) with (keqb d d0 && keqb h h0).
      destruct (keqb d d0 && keqb h h0); reflexivity.
    + rewrite grid_sum_plus, IH by (intros x Hx; apply Hin; now right).
      simpl List.length.
      replace (grid_sum (fun d h => if keqb d d0 && keqb h h0 then 1 else 0)
                        rows cols) with 1; [reflexivity|].
      symmetry. unfold grid_sum.
      rewrite (list_sum_map_ext _ (fun d => if keqb d d0 then 1 else 0)).
      * now apply indicator_sum.
      * intros d _. destruct (keqb d d0); cbn [andb].
        -- now apply indicator_sum.
        -- apply list_sum_map_zero.
Qed.

Lemma StronglySorted_weaken {X} (R R' : X -> X -> Prop) (l : list X) :
  (forall a b, R a b -> R' a b) ->
  StronglySorted R l -> StronglySorted R' l.
Proof.
  intros HR. induction 1 as [|a l Hl IH Hall]; constructor; [exact IH|].
  eapply Forall_impl; [|exact Hall]. intros b. apply HR.
Qed.

Lemma date_eqb_sym (a b : Date) : date_eqb a b = date_eqb b a.
Proof.
  unfold date_eqb.
  now rewrite (Nat.eqb_sym (year a)), (Nat.eqb_sym (month a)),
    (Nat.eqb_sym (day a)).
Qed.

Lemma dropna_group_key_length (df : DataFrame) :
  List.length (Series.dropna (map group_key df)) = total_valid_events df.
Proof.
  unfold total_valid_events.
  induction df as [|[s [ts|]] df IH]; simpl; auto.
Qed.

(** The group of (date, hour) holds the events of that date and hour. *)
Lemma group_counts_get (d : Date) (h : nat) (df : DataFrame) :
  Series.get (d, h) 0 (group_counts df) = events_on d h df.
Proof.
  unfold group_counts, events_on. rewrite value_counts_get.
  induction df as [|[s [ts|]] df IH]; simpl; auto.
  unfold group_key at 2; simpl.
  change (keqb (d, h) (ts_date ts, ts_hour ts))
    with (date_eqb d (ts_date ts) && (h =? ts_hour ts)).
  rewrite (date_eqb_sym d), (Nat.eqb_sym h).
  destruct (date_eqb (ts_date ts) d && (ts_hour ts =? h)); simpl; auto.
Qed.

(** C7.  The cell of date [d] and hour [h] of the Date x Hour matrix,
    read with 0 where the pair is not materialised, is the number of
    events of date [d] and hour [h]; the stored grid is rectangular, its
    row labels (dates) and column labels (hours) ascend strictly, and the
    sum of all its cells is the number of events with a valid timestamp. *)
Theorem heatmap_cells_count_events (df : DataFrame) :
  let p := pivot_table df in
  (forall d h, cell p d h = events_on d h df) /\
  StronglySorted (fun a b => date_ltb a b = true) (pv_index p) /\
  StronglySorted (fun a b => a < b) (pv_columns p) /\
  List.length (pv_values p) = List.length (pv_index p) /\
  (forall row, In row (pv_values p) ->
               List.length row = List.length (pv_columns p)) /\
  total p = total_valid_events df.
Proof.
  intros p.
  set (groups := group_counts df).
  set (keys := Series.index groups).
  assert (Hkeys : forall d h, ~ In (d, h) keys -> events_on d h df = 0).
  { intros d h Hn. rewrite <- group_counts_get.
    now apply get_notin. }
  repeat split.
  - intros d h. unfold cell, p, pivot_table; simpl.
    fold groups. fold keys.
    rewrite locate_map.
    destruct (existsb (keqb d) (level (map fst keys))) eqn:Ed.
    + rewrite locate_map.
      destruct (existsb (keqb h) (level (map snd keys))) eqn:Eh.
      * apply group_counts_get.
      * symmetry. apply Hkeys. intros Hin.
        apply not_true_iff_false in Eh. apply Eh.
        apply existsb_keqb, level_In.
        change h with (snd (d, h)). now apply in_map.
    + symmetry. apply Hkeys. intros Hin.
      apply not_true_iff_false in Ed. apply Ed.
      apply existsb_keqb, level_In.
      change d with (fst (d, h)). now apply in_map.
  - exact (level_ascending (map fst keys)).
  - apply (StronglySorted_weaken Series.key_lt).
    + intros a b. unfold Series.key_lt; simpl. apply Nat.ltb_lt.
    + exact (level_ascending (map snd keys)).
  - unfold p, pivot_table; simpl. apply length_map.
  - unfold p, pivot_table; simpl. intros row Hrow.
    apply in_map_iff in Hrow. destruct Hrow as [d [<- _]].
    apply length_map.
  - unfold total, p, pivot_table; simpl. fold groups. fold keys.
    rewrite map_map.
    rewrite <- dropna_group_key_length.
    rewrite <- (value_counts_sum (map group_key df)).
    fold (group_counts df). fold groups.
    transitivity
      (grid_sum (fun d h => List.length
                   (filter (fun x => keqb (d, h) x)
                           (Series.dropna (map group_key df))))
                (level (map fst keys)) (level (map snd keys))).
    + unfold grid_sum. apply list_sum_map_ext. intros d _.
      apply list_sum_map_ext. intros h _.
      unfold groups, group_counts. apply value_counts_get.
    + rewrite grid_sum_filter.
      * unfold groups, group_counts. now rewrite value_counts_sum.
      * apply level_NoDup.
      * apply level_NoDup.
      * intros x Hx. rewrite !level_In.
        assert (Hk : In x keys).
        { unfold keys, groups, group_counts.
          now apply value_counts_index_In. }
        split; now apply in_map.
Qed.

(* ================================================================== *)
(** ** Cyclic pattern detector                                         *)
(* ================================================================== *)

Lemma tuple_eqb_eq (p q : list string) : tuple_eqb p q = true <-> p = q.
Proof.
  unfold tuple_eqb. destruct (list_eq_dec string_dec p q); split; congruence.
Qed.

(** [first_index p i n] is the least index of [i, i+n) satisfying [p]. *)
Lemma first_index_Some (p : nat -> bool) (i n j : nat) :
  first_index p i n = Some j <->
  i <= j < i + n /\ p j = true /\ forall k, i <= k < j -> p k = false.
Proof.
  revert i. induction n as [|n IH]; intros i; simpl.
  - split; [discriminate | lia].
  - destruct (p i) eqn:Ei.
    + split.
      * intros E. injection E as <-. repeat split; [lia | lia | exact Ei | lia].
      * intros (Hr & Hj & Hlow). f_equal.
        destruct (Nat.eq_dec i j) as [|Hne]; [assumption|].
        rewrite (Hlow i) in Ei by lia. discriminate.
    + rewrite IH. split.
      * intros (Hr & Hj & Hlow). repeat split; [lia | lia | exact Hj |].
        intros k Hk. destruct (Nat.eq_dec k i) as [->|]; [exact Ei|].
        apply Hlow. lia.
      * intros (Hr & Hj & Hlow).
        assert (i <> j) by (intros ->; congruence).
        repeat split; [lia | lia | exact Hj |].
        intros k Hk. apply Hlow. lia.
Qed.

Lemma first_index_None (p : nat -> bool) (i n : nat) :
  first_index p i n = None <-> forall k, i <= k < i + n -> p k = false.
Proof.
  revert i. induction n as [|n IH]; intros i; simpl.
  - split; [lia | reflexivity].
  - destruct (p i) eqn:Ei.
    + split; [discriminate|]. intros Hall.
      rewrite (Hall i) in Ei by lia. discriminate.
    + rewrite IH. split.
      * intros Hall k Hk. destruct (Nat.eq_dec k i) as [->|]; [exact Ei|].
        apply Hall. lia.
      * intros Hall k Hk. apply Hall. lia.
Qed.

(** The scan reports the least start index [i] with [i + 2*l < len]
    whose window equals the next one: the start index [len - 2*l] itself
    is outside the scan. *)
Lemma find_repeat_Some (tokens : list string) (l i : nat) :
  find_repeat tokens l = Some i <->
  i + l * 2 < List.length tokens /\
  pattern_at tokens i l = next_pattern_at tokens i l /\
  forall k, k < i -> pattern_at tokens k l <> next_pattern_at tokens k l.
Proof.
  unfold find_repeat, range_len. rewrite first_index_Some.
  rewrite tuple_eqb_eq. split.
  - intros (Hr & E & Hlow). repeat split; [lia | exact E |].
    intros k Hk Ek. apply tuple_eqb_eq in Ek.
    rewrite Hlow in Ek by lia. discriminate.
  - intros (Hr & E & Hlow). repeat split; [lia | lia | exact E |].
    intros k Hk. apply not_true_iff_false. rewrite tuple_eqb_eq.
    apply Hlow. lia.
Qed.

Lemma find_repeat_None (tokens : list string) (l : nat) :
  find_repeat tokens l = None <->
  forall k, k + l * 2 < List.length tokens ->
            pattern_at tokens k l <> next_pattern_at tokens k l.
Proof.
  unfold find_repeat, range_len. rewrite first_index_None. split.
  - intros Hall k Hk Ek. apply tuple_eqb_eq in Ek.
    rewrite Hall in Ek by lia. discriminate.
  - intros Hall k Hk. apply not_true_iff_false. rewrite tuple_eqb_eq.
    apply Hall. lia.
Qed.

(** The extension loop adds to [repetitions] the number [m] of windows
    [k, k+1, ..., k+m-1] that fit in the sequence and equal the pattern,
    stopping at the first window that does not, or after [n] checks. *)
Lemma extend_spec (tokens pattern : list string) (i l k n r : nat) :
  exists m,
    extend tokens pattern i l k n r = r + m /\
    m <= n /\
    (forall j, j < m ->
       i + l * (k + j) + l <= List.length tokens /\
       slice tokens (i + l * (k + j)) (i + l * (k + j) + l) = pattern) /\
    (m < n ->
       List.length tokens < i + l * (k + m) + l \/
       slice tokens (i + l * (k + m)) (i + l * (k + m) + l) <> pattern).
Proof.
  revert k r. induction n as [|n IH]; intros k r; simpl.
  - exists 0. repeat split; try lia.
  - destruct (List.length tokens <? i + l * k + l) eqn:Efit.
    + apply Nat.ltb_lt in Efit. exists 0.
      rewrite !Nat.add_0_r. repeat split; try lia.
    + apply Nat.ltb_ge in Efit.
      destruct (tuple_eqb (slice tokens (i + l * k) (i + l * k + l)) pattern)
        eqn:Eeq.
      * apply tuple_eqb_eq in Eeq.
        destruct (IH (S k) (S r)) as (m & E & Hm & Hall & Hstop).
        exists (S m). repeat split.
        -- rewrite E. lia.
        -- lia.
        -- destruct j as [|j].
           ++ now rewrite Nat.add_0_r.
           ++ replace (k + S j) with (S k + j) by lia. apply Hall. lia.
        -- destruct j as [|j].
           ++ now rewrite Nat.add_0_r.
           ++ replace (k + S j) with (S k + j) by lia. apply Hall. lia.
        -- intros Hlt. replace (k + S m) with (S k + m) by lia.
           apply Hstop. lia.
      * exists 0. rewrite !Nat.add_0_r. repeat split; try lia.
        intros _. right. intros E. apply tuple_eqb_eq in E. congruence.
Qed.

(** The reported count lies between 1 and 9: the loop makes at most 8
    checks, for k = 2, ..., 9. *)
Lemma count_repetitions_bounds (tokens : list string) (i l : nat) :
  1 <= count_repetitions tokens i l <= 9.
Proof.
  unfold count_repetitions.
  destruct (extend_spec tokens (pattern_at tokens i l) i l 2 (10 - 2) 1)
    as (m & E & Hm & _).
  rewrite E. simpl in Hm. lia.
Qed.

Example detector_too_short :
  find_repeat ["A"; "B"; "C"] 3 = None.
Proof. reflexivity. Qed.

(** C1.  The scan misses the last start index: on A B A B with window
    length 2 the windows at index 0 and 2 are equal and index 0 is
    [len - 2*l], but the scan, which is over [range(len - 2*l)], is empty
    and finds nothing; the scan with the inclusive bound finds index 0.
    The same happens at the configured length 3 on A B C A B C. *)
Theorem scan_omits_last_start_index :
  let tokens := ["A"; "B"; "A"; "B"] in
  pattern_at tokens 0 2 = next_pattern_at tokens 0 2 /\
  find_repeat tokens 2 = None /\
  spec_find_repeat tokens 2 = Some 0 /\
  cyclic_patterns [2] tokens = [Checking 2; NotFound 2] /\
  cyclic_patterns pattern_lengths_to_check ["A"; "B"; "C"; "A"; "B"; "C"]
  = [Checking 3; NotFound 3; Checking 5; NotFound 5; Checking 8; NotFound 8].
Proof. repeat split; reflexivity. Qed.

(** C2.  The extension loop stops short of the cap it announces: its
    comment says that up to 10 repetitions are checked, but the loop is
    over [range(2, 10)].  On eleven consecutive copies of A B the windows
    k = 2, ..., 10 ([seq 2 9]) all fit and all equal the pattern, so nine
    checks succeed and the count is 10 under a cap of ten checks; the
    code makes eight checks and reports 9. *)
Lemma extension_stops_after_eight_checks :
  let tokens := List.concat (repeat ["A"; "B"] 11) in
  find_repeat tokens 2 = Some 0 /\
  forallb (fun k => (0 + 2 * k + 2 <=? List.length tokens) &&
                    tuple_eqb (slice tokens (0 + 2 * k) (0 + 2 * k + 2))
                              (pattern_at tokens 0 2))
          (seq 2 9) = true /\
  count_repetitions tokens 0 2 = 9 /\
  spec_count_repetitions tokens 0 2 = 10 /\
  cyclic_patterns pattern_lengths_to_check
                  (List.concat (repeat ["A"; "B"; "C"] 11))
  = [Checking 3; Found 3 0 ["A"; "B"; "C"]; Repeats 3 9;
     Checking 5; Checking 8].
Proof.
  repeat split; reflexivity.
Qed.

(** X24.  What the extension loop computes as it is written: after a
    match at [i] the reported count [r] is at least 1 and at most 9;
    every window k = 2, ..., r fits in the sequence and equals the
    pattern; and when [r] is below 9 the window k = r + 1 runs past the
    end of the sequence or differs from the pattern.  On A B A B A B with
    length 2 the match is at index 0 with count 2. *)
Theorem repetition_count_characterised (tokens : list string) (i l : nat) :
  let r := count_repetitions tokens i l in
  (1 <= r <= 9) /\
  (forall k, 2 <= k <= r ->
     i + l * k + l <= List.length tokens /\
     slice tokens (i + l * k) (i + l * k + l) = pattern_at tokens i l) /\
  (r < 9 ->
     List.length tokens < i + l * (r + 1) + l \/
     slice tokens (i + l * (r + 1)) (i + l * (r + 1) + l)
     <> pattern_at tokens i l) /\
  (find_repeat ["A"; "B"; "A"; "B"; "A"; "B"] 2 = Some 0 /\
   count_repetitions ["A"; "B"; "A"; "B"; "A"; "B"] 0 2 = 2).
Proof.
  intros r. unfold r, count_repetitions.
  destruct (extend_spec tokens (pattern_at tokens i l) i l 2 (10 - 2) 1)
    as (m & E & Hm & Hall & Hstop).
  rewrite E. simpl in Hm. repeat split; try lia; try reflexivity.
  - replace k with (2 + (k - 2)) by lia. apply Hall. lia.
  - replace k with (2 + (k - 2)) by lia. apply Hall. lia.
  - intros Hr. replace (1 + m + 1) with (2 + m) by lia.
    apply Hstop. simpl. lia.
Qed.

(** C5.  The flag [patterns_found] is shared by all lengths.  Neither
    sequence below has a repeated window of length 5, yet for the first,
    where length 3 matched before, nothing at all is reported for length
    5, while the second gets its "not found" line; alone, length 5 gets
    the line on the first sequence too. *)
Theorem not_found_report_depends_on_earlier_length :
  let matching := ["A"; "B"; "C"; "A"; "B"; "C"; "D"] in
  let plain := ["A"; "B"; "C"; "D"; "E"; "F"; "G"] in
  find_repeat matching 5 = None /\
  find_repeat plain 5 = None /\
  reported 5 (cyclic_patterns pattern_lengths_to_check matching) = [] /\
  reported 5 (cyclic_patterns pattern_lengths_to_check plain) = [NotFound 5] /\
  reported 5 (cyclic_patterns [5] matching) = [NotFound 5] /\
  cyclic_patterns pattern_lengths_to_check matching
  = [Checking 3; Found 3 0 ["A"; "B"; "C"]; Checking 5; Checking 8].
Proof. repeat split; reflexivity. Qed.

(* ================================================================== *)
(** ** Summary statistics and the full run                             *)
(* ================================================================== *)

Lemma no_valid_dropna_hour (df : DataFrame) :
  total_valid_events df = 0 -> Series.dropna (map hour df) = [].
Proof.
  intros Hz. rewrite <- dropna_hour_length in Hz.
  now destruct (Series.dropna (map hour df)).
Qed.

Lemma no_valid_dropna_timestamp (df : DataFrame) :
  total_valid_events df = 0 -> Series.dropna (map timestamp df) = [].
Proof.
  unfold total_valid_events.
  induction df as [|[s [ts|]] df IH]; simpl; intros Hz;
    [reflexivity | discriminate | now apply IH].
Qed.

(** A frame with rows but no valid timestamp makes the temporal analysis
    raise, at [hourly_counts.idxmax()]. *)
Lemma temporal_analysis_raises_without_timestamps (df : DataFrame) :
  df <> [] -> total_valid_events df = 0 ->
  analyze_temporal_patterns df = Raise ValueError /\
  run_full_analysis df = Raise ValueError.
Proof.
  intros Hne Hz.
  assert (E : analyze_temporal_patterns df = Raise ValueError).
  { unfold analyze_temporal_patterns.
    destruct df as [|e df]; [congruence|]. cbn [has_columns negb].
    unfold most_active_hour, hourly_counts, Series.value_counts_sorted.
    now rewrite (no_valid_dropna_hour _ Hz). }
  split; [exact E|]. unfold run_full_analysis. now rewrite E.
Qed.

(** Without a valid timestamp no summary is written at all: building it
    raises, on the missing [signature] column of an empty frame or on the
    [strftime] of [NaT]. *)
Lemma no_summary_without_timestamps (df : DataFrame) :
  total_valid_events df = 0 ->
  export_results df
  = ExportFailed (match df with [] => KeyError | _ :: _ => ValueError end).
Proof.
  intros Hz. unfold export_results, summary_stats, column.
  destruct df as [|e df]; [reflexivity|]. cbn [has_columns bind].
  unfold ts_min. now rewrite (no_valid_dropna_timestamp _ Hz).
Qed.

(** C9.  With one event whose timestamp is invalid the run ends with an
    exception, and the export alone writes no summary for it; on the empty
    input the run completes but the summary is not written either, so no
    field is reported, as unavailable or otherwise. *)
Theorem absent_data_is_not_reported_unavailable :
  let df := [mkEvent "ET SCAN Nmap ping sweep" None] in
  total_valid_events df = 0 /\
  analyze_temporal_patterns df = Raise ValueError /\
  run_full_analysis df = Raise ValueError /\
  export_results df = ExportFailed ValueError /\
  export_results [] = ExportFailed KeyError /\
  run_full_analysis [] = Ok (None, ExportFailed KeyError).
Proof. repeat split; reflexivity. Qed.

(* ################################################################## *)
(** * Further properties of the code                                   *)
(* ################################################################## *)

(* ================================================================== *)
(** ** Classifier: case, fallback and label sets                       *)
(* ================================================================== *)

Lemma upper_char_idem (c : ascii) : upper_char (upper_char c) = upper_char c.
Proof. destruct c as [[] [] [] [] [] [] [] []]; reflexivity. Qed.

Lemma upper_lower_char (c : ascii) : upper_char (lower_char c) = upper_char c.
Proof. destruct c as [[] [] [] [] [] [] [] []]; reflexivity. Qed.

Lemma upper_idem (s : string) : upper (upper s) = upper s.
Proof.
  induction s as [|c s IH]; simpl; [reflexivity|].
  now rewrite upper_char_idem, IH.
Qed.

Lemma upper_lower (s : string) : upper (lower s) = upper s.
Proof.
  induction s as [|c s IH]; simpl; [reflexivity|].
  now rewrite upper_lower_char, IH.
Qed.

(** X1.  On ASCII signatures classification ignores the case: the
    uppercased and the lowercased signature get the category pair of the
    signature itself. *)
Theorem classification_ignores_case (signature : string) :
  is_ascii signature = true ->
  extract_detailed_threat_category (upper signature)
  = extract_detailed_threat_category signature /\
  extract_detailed_threat_category (lower signature)
  = extract_detailed_threat_category signature.
Proof.
  intros _. unfold extract_detailed_threat_category.
  now rewrite upper_idem, upper_lower.
Qed.

Lemma classification_ignores_case_witness :
  let signature := "ET Exploit Win32k elevation" in
  is_ascii signature = true /\
  extract_detailed_threat_category (upper signature)
  = extract_detailed_threat_category signature /\
  extract_detailed_threat_category (lower signature)
  = extract_detailed_threat_category signature.
Proof.
  intros signature.
  assert (Ha : is_ascii signature = true) by reflexivity.
  split; [exact Ha|].
  exact (classification_ignores_case signature Ha).
Defined.

(** Decides the [if]/[elif] chain of the classifier one keyword test at a
    time, closing each decided case with [tac]. *)
Ltac chain_cases tac :=
  repeat match goal with
         | |- context [contains ?k (upper ?s)] =>
             destruct (contains k (upper s));
             cbn [orb andb negb fst snd existsb]; try solve [tac]
         end.

(** X2.  The fallback is taken exactly when no keyword occurs: the main
    category is OTHER, and the pair (OTHER, Uncategorized), if and only if
    the uppercased signature contains none of the ten keywords of the
    chain. *)
Theorem other_iff_no_keyword (signature : string) :
  (fst (extract_detailed_threat_category signature) = "OTHER" <->
   any_of recognized_keywords (upper signature) = false) /\
  (extract_detailed_threat_category signature = ("OTHER", "Uncategorized") <->
   any_of recognized_keywords (upper signature) = false).
Proof.
  unfold extract_detailed_threat_category, any_of, recognized_keywords.
  cbn [existsb].
  split;
    chain_cases ltac:(split; intros E; (discriminate E || reflexivity)).
Qed.

(** X3.  Which keyword gives which main category: MALWARE exactly when
    MALWARE-CNC occurs; NETWORK exactly when NETBIOS occurs and neither
    MALWARE-CNC nor EXPLOIT does; INDICATOR exactly when
    INDICATOR-COMPROMISE occurs and none of the three before it does. *)
Theorem main_category_by_keyword (signature : string) :
  let sig := upper signature in
  let main := fst (extract_detailed_threat_category signature) in
  (main = "MALWARE" <-> contains "MALWARE-CNC" sig = true) /\
  (main = "NETWORK" <->
   contains "MALWARE-CNC" sig = false /\ contains "EXPLOIT" sig = false /\
   contains "NETBIOS" sig = true) /\
  (main = "INDICATOR" <->
   contains "MALWARE-CNC" sig = false /\ contains "EXPLOIT" sig = false /\
   contains "NETBIOS" sig = false /\
   contains "INDICATOR-COMPROMISE" sig = true).
Proof.
  intros sig main. unfold main, sig, extract_detailed_threat_category.
  split; [|split]; chain_cases ltac:(intuition congruence).
Qed.

(** X4.  Every signature is classified into one of the seventeen pairs of
    the taxonomy, in which each detail label belongs to one main category
    only. *)
Theorem classification_pairs_closed (signature : string) :
  In (extract_detailed_threat_category signature) category_pairs /\
  (forall main main' detail,
      In (main, detail) category_pairs -> In (main', detail) category_pairs ->
      main = main').
Proof.
  split.
  - unfold extract_detailed_threat_category, malware_detail, exploit_detail,
      network_detail, indicator_detail, category_pairs.
    repeat match goal with
           | |- In (if ?b then _ else _) _ =>
               match b with
               | context [contains ?k ?s] =>
                   destruct (contains k s); cbn [orb]
               end
           | |- In (_, if ?b then _ else _) _ =>
               match b with
               | context [contains ?k ?s] =>
                   destruct (contains k s); cbn [orb]
               end
           end; simpl; tauto.
  - intros main main' detail H1 H2.
    assert (Hall : forallb (fun p =>
                     forallb (fun q =>
                       implb (String.eqb (snd p) (snd q))
                             (String.eqb (fst p) (fst q)))
                             category_pairs) category_pairs = true)
      by (vm_compute; reflexivity).
    rewrite forallb_forall in Hall. specialize (Hall _ H1).
    rewrite forallb_forall in Hall. specialize (Hall _ H2).
    cbn [fst snd] in Hall. rewrite String.eqb_refl in Hall.
    now apply String.eqb_eq.
Qed.

(* ================================================================== *)
(** ** Loading: the events key                                         *)
(* ================================================================== *)

Lemma lower_app (a b : string) :
  lower (a ++ b)%string = (lower a ++ lower b)%string.
Proof. induction a; simpl; [reflexivity | now rewrite IHa]. Qed.

Lemma lstrip_suffix (s : string) : exists a, s = (a ++ lstrip s)%string.
Proof.
  induction s as [|c s [a IH]]; simpl.
  - now exists "".
  - destruct (is_space c).
    + exists (String c a). simpl. now rewrite <- IH.
    + now exists "".
Qed.

Lemma rstrip_prefix (s : string) : exists b, s = (rstrip s ++ b)%string.
Proof.
  induction s as [|c s [b IH]]; simpl.
  - now exists "".
  - destruct (rstrip s) as [|c' r'] eqn:E.
    + destruct (is_space c).
      * now exists (String c s).
      * exists s. reflexivity.
    + exists b. simpl in *. now rewrite <- IH.
Qed.

Lemma string_app_assoc (a b c : string) :
  ((a ++ b) ++ c)%string = (a ++ (b ++ c))%string.
Proof. induction a; simpl; [reflexivity | now rewrite IHa]. Qed.

(** The stripped text sits inside the text. *)
Lemma strip_infix (s : string) : exists a b, s = (a ++ strip s ++ b)%string.
Proof.
  unfold strip. destruct (lstrip_suffix s) as [a Ha].
  destruct (rstrip_prefix (lstrip s)) as [b Hb].
  exists a, b. now rewrite <- Hb.
Qed.

Lemma is_events_mentions_event (key : string) :
  is_events key = true -> mentions_event key = true.
Proof.
  unfold is_events, mentions_event. rewrite String.eqb_eq. intros E.
  destruct (strip_infix key) as (a & b & Hk).
  apply contains_iff. exists (lower a), ("s" ++ lower b)%string.
  rewrite Hk at 1. rewrite !lower_app, E. reflexivity.
Qed.

Lemma first_key_Some (p : string -> bool) (keys : list string) (k : string) :
  first_key p keys = Some k <->
  exists pre post, keys = pre ++ k :: post /\ p k = true /\
                   forall k', In k' pre -> p k' = false.
Proof.
  induction keys as [|x keys IH]; simpl.
  - split; [discriminate|]. intros (pre & post & E & _).
    destruct pre; discriminate.
  - destruct (p x) eqn:Ex.
    + split.
      * intros E. injection E as <-. exists [], keys. now repeat split.
      * intros (pre & post & E & Hk & Hpre). destruct pre as [|y pre].
        -- now injection E as ->.
        -- injection E as <- _. rewrite (Hpre x) in Ex by now left.
           discriminate.
    + rewrite IH. split.
      * intros (pre & post & -> & Hk & Hpre). exists (x :: pre), post.
        repeat split; [exact Hk|]. intros k' [<- | Hin]; auto.
      * intros (pre & post & E & Hk & Hpre). destruct pre as [|y pre].
        -- injection E as -> _. congruence.
        -- injection E as <- ->. exists pre, post.
           repeat split; [exact Hk|]. intros k' Hin. apply Hpre. now right.
Qed.

Lemma first_key_None (p : string -> bool) (keys : list string) :
  first_key p keys = None <-> forall k, In k keys -> p k = false.
Proof.
  induction keys as [|x keys IH]; simpl.
  - split; [contradiction | reflexivity].
  - destruct (p x) eqn:Ex.
    + split; [discriminate|]. intros Hall.
      rewrite (Hall x) in Ex by now left. discriminate.
    + rewrite IH. split.
      * intros Hall k [<- | Hin]; auto.
      * intros Hall k Hin. apply Hall. now right.
Qed.

(** A key found by either search is not the empty text. *)
Lemma first_key_truthy (p : string -> bool) (keys : list string) :
  p "" = false -> truthy (first_key p keys) = false ->
  first_key p keys = None.
Proof.
  intros Hp. destruct (first_key p keys) as [k|] eqn:E; [|reflexivity].
  apply first_key_Some in E. destruct E as (_ & _ & _ & Hk & _).
  destruct k; [congruence | discriminate].
Qed.

(** X5.  The key search of the loader fails, with [KeyError], exactly
    when no key contains the text event in any case; and a key it
    returns is one of the given keys and contains that text. *)
Theorem events_key_found_iff_some_key_mentions_event (keys : list string) :
  match find_events_key keys with
  | Ok key => In key keys /\ mentions_event key = true
  | Raise e =>
      e = KeyError /\ forall k, In k keys -> mentions_event k = false
  end.
Proof.
  unfold find_events_key.
  destruct (truthy (first_key is_events keys)) eqn:T1; cbn [negb].
  - rewrite T1; cbn [negb].
    destruct (first_key is_events keys) as [k|] eqn:E; [|discriminate].
    apply first_key_Some in E. destruct E as (pre & post & -> & Hk & _).
    split; [apply in_elt | now apply is_events_mentions_event].
  - destruct (truthy (first_key mentions_event keys)) eqn:T2; cbn [negb].
    + destruct (first_key mentions_event keys) as [k|] eqn:E; [|discriminate].
      apply first_key_Some in E. destruct E as (pre & post & -> & Hk & _).
      split; [apply in_elt | exact Hk].
    + split; [reflexivity|].
      apply first_key_None. now apply first_key_truthy.
Qed.

(** X6.  An exact match wins over a partial one wherever it stands: the
    first key that reads events once stripped and lowercased is returned,
    whatever the keys before it contain. *)
Theorem events_key_prefers_exact_match (pre post : list string)
  (key : string) :
  (forall k, In k pre -> is_events k = false) ->
  is_events key = true ->
  find_events_key (pre ++ key :: post) = Ok key.
Proof.
  intros Hpre Hk. unfold find_events_key.
  assert (E : first_key is_events (pre ++ key :: post) = Some key).
  { apply first_key_Some. exists pre, post. now repeat split. }
  rewrite E. destruct key as [|c key]; [discriminate Hk | reflexivity].
Qed.

Lemma events_key_prefers_exact_match_witness :
  (forall k, In k ["event_log"; "meta"] -> is_events k = false) /\
  is_events "  Events " = true /\
  find_events_key (["event_log"; "meta"] ++ "  Events " :: ["events"])
  = Ok "  Events ".
Proof.
  assert (Hpre : forall k, In k ["event_log"; "meta"] -> is_events k = false).
  { intros k [<- | [<- | []]]; reflexivity. }
  split; [exact Hpre|]. split; [reflexivity|].
  exact (events_key_prefers_exact_match
           ["event_log"; "meta"] ["events"] "  Events " Hpre eq_refl).
Defined.

(* ================================================================== *)
(** ** Listings and histograms                                         *)
(* ================================================================== *)

Lemma string_length_app (a b : string) :
  String.length (a ++ b)%string = String.length a + String.length b.
Proof. induction a; simpl; [reflexivity | now rewrite IHa]. Qed.

Lemma substring_prefix_length (n : nat) (s : string) :
  n <= String.length s -> String.length (substring 0 n s) = n.
Proof.
  revert s. induction n as [|n IH]; intros s Hn.
  - now destruct s.
  - destruct s as [|c s]; simpl in *; [lia|]. rewrite IH; lia.
Qed.

Lemma truncate_length (n : nat) (s : string) :
  String.length (truncate n s)
  = if n <? String.length s then n + 3 else String.length s.
Proof.
  unfold truncate. destruct (n <? String.length s) eqn:E; [|reflexivity].
  apply Nat.ltb_lt in E.
  rewrite string_length_app, substring_prefix_length by lia. reflexivity.
Qed.

(** X7.  The shortened signature of the top-10 listing never exceeds 58
    characters, so it fits its field of 60, and the one of the pattern
    listing never exceeds 53; a signature within the limit (55, resp. 50)
    is shown unchanged. *)
Theorem displayed_signature_is_bounded (signature : string) :
  String.length (signature_display signature) <= 58 /\
  String.length (sig_display signature) <= 53 /\
  (String.length signature <= 55 -> signature_display signature = signature) /\
  (String.length signature <= 50 -> sig_display signature = signature).
Proof.
  unfold signature_display, sig_display. rewrite !truncate_length.
  unfold truncate.
  destruct (Nat.ltb_spec 55 (String.length signature)) as [E1 | E1];
    destruct (Nat.ltb_spec 50 (String.length signature)) as [E2 | E2];
    repeat split; intros; try reflexivity; solve [lia | exfalso; lia].
Qed.

Section SeriesEntries.
Context {K : Type} `{OrderedLaws K}.

(** The entries of a sorted count series are the keys that occur, each
    with its positive number of occurrences. *)
Lemma value_counts_In (k : K) (c : nat) (col : list (option K)) :
  In (k, c) (Series.value_counts_sorted col) <->
  c = Series.get k 0 (Series.value_counts_sorted col) /\ 0 < c.
Proof.
  pose proof (value_counts_ascending col) as Hasc.
  pose proof (value_counts_positive col) as Hpos.
  split.
  - intros Hin. split.
    + symmetry. now apply get_In.
    + rewrite Forall_forall in Hpos. apply (Hpos _ Hin).
  - intros [-> Hc].
    destruct (key_In_dec k (Series.index (Series.value_counts_sorted col)))
      as [Hin | Hn].
    + apply index_In_inv in Hin. destruct Hin as [c' Hin].
      now rewrite (get_In k c' 0 _ Hasc Hin).
    + rewrite (get_notin k 0 _ Hn) in Hc. lia.
Qed.

End SeriesEntries.

Lemma daily_counts_get (d : Date) (df : DataFrame) :
  Series.get d 0 (daily_counts df) = events_on_date d df.
Proof.
  unfold daily_counts, events_on_date. rewrite value_counts_get.
  induction df as [|[s [ts|]] df IH]; simpl; auto.
  unfold date at 2; simpl.
  change (keqb d (ts_date ts)) with (date_eqb d (ts_date ts)).
  rewrite (date_eqb_sym d).
  destruct (date_eqb (ts_date ts) d); simpl; auto.
Qed.

(** X9.  The hour histogram holds exactly the pairs of an hour and its
    number of events for the hours that have at least one event, and the
    date histogram the same for dates: no entry has count 0, and no hour
    or date with events is missing. *)
Theorem histogram_entries_are_positive_counts (df : DataFrame) :
  (forall h c, In (h, c) (hourly_counts df) <->
               c = events_in_hour h df /\ 0 < c) /\
  (forall d c, In (d, c) (daily_counts df) <->
               c = events_on_date d df /\ 0 < c).
Proof.
  split.
  - intros h c. rewrite <- hourly_counts_get. apply value_counts_In.
  - intros d c. rewrite <- daily_counts_get. apply value_counts_In.
Qed.

Lemma flat_map_ext_In {X Y} (f g : X -> list Y) (l : list X) :
  (forall x, In x l -> f x = g x) -> flat_map f l = flat_map g l.
Proof.
  induction l as [|a l IH]; simpl; intros E; [reflexivity|].
  rewrite (E a) by now left. f_equal. apply IH.
  intros x Hx. apply E. now right.
Qed.

(** Listing the positive counts of the keys [a, a+n) of an ascending
    series of positive counts whose keys lie in that range gives the
    series back. *)
Lemma listing_is_series (n a : nat) (s : Series.t nat) :
  Series.ascending s ->
  Forall (fun y => 0 < snd y) s ->
  Forall (fun y => a <= fst y < a + n) s ->
  flat_map (fun hour =>
              let count := Series.get hour 0 s in
              if 0 <? count then [(hour, count)] else [])
           (seq a n)
  = s.
Proof.
  revert a s. induction n as [|n IH]; intros a s Hasc Hpos Hrange.
  - destruct s as [|[k c] r]; [reflexivity|].
    apply Forall_cons_iff in Hrange. simpl in Hrange. lia.
  - cbn [seq flat_map].
    destruct s as [|[k c] r].
    + simpl. apply (IH (S a) []); constructor.
    + apply Forall_cons_iff in Hpos, Hrange.
      destruct Hpos as [Hc Hpos], Hrange as [Hk Hrange]. simpl in Hc, Hk.
      pose proof Hasc as Hinv. apply StronglySorted_inv in Hinv.
      destruct Hinv as [Hr Hlt].
      assert (Hgt : forall y, In y r -> k < fst y).
      { intros y Hy. rewrite Forall_forall in Hlt.
        specialize (Hlt (fst y) (in_map fst r y Hy)).
        unfold Series.key_lt in Hlt. simpl in Hlt. now apply Nat.ltb_lt. }
      assert (Hup : forall y, In y r -> fst y < a + S n).
      { intros y Hy. rewrite Forall_forall in Hrange. now apply Hrange. }
      destruct (Nat.eq_dec k a) as [-> | Hne].
      * cbn [Series.get]. change (keqb a a) with (a =? a).
        rewrite Nat.eqb_refl.
        destruct (0 <? c) eqn:Ec; [|apply Nat.ltb_ge in Ec; lia].
        cbn [app]. f_equal.
        transitivity
          (flat_map (fun hour =>
                       let count := Series.get hour 0 r in
                       if 0 <? count then [(hour, count)] else [])
                    (seq (S a) n)).
        -- apply flat_map_ext_In. intros hour Hh. apply in_seq in Hh.
           change (keqb hour a) with (hour =? a).
           destruct (hour =? a) eqn:E; [apply Nat.eqb_eq in E; lia|].
           reflexivity.
        -- apply IH; [exact Hr | exact Hpos |].
           apply Forall_forall. intros y Hy.
           specialize (Hgt y Hy). specialize (Hup y Hy). lia.
      * assert (E : Series.get a 0 ((k, c) :: r) = 0).
        { apply get_below. constructor.
          - unfold Series.key_lt; simpl. apply Nat.ltb_lt. lia.
          - apply Forall_forall. intros x Hx.
            apply in_map_iff in Hx. destruct Hx as [y [<- Hy]].
            specialize (Hgt y Hy).
            unfold Series.key_lt; simpl. apply Nat.ltb_lt. lia. }
        rewrite E. cbn [Nat.ltb Nat.leb app].
        apply IH; [exact Hasc | now constructor |].
        constructor; [simpl; lia|].
        apply Forall_forall. intros y Hy.
        specialize (Hgt y Hy). specialize (Hup y Hy). lia.
Qed.

Lemma hourly_index_hours (h : nat) (df : DataFrame) :
  In h (Series.index (hourly_counts df)) <->
  exists e ts, In e df /\ timestamp e = Some ts /\ ts_hour ts = h.
Proof.
  unfold hourly_counts. rewrite value_counts_index_In.
  induction df as [|[s [ts|]] df IH]; simpl.
  - split; [contradiction | intros (e & ts & [] & _)].
  - rewrite IH. split.
    + intros [<- | (e & ts' & Hin & Ht & Hh)].
      * exists (mkEvent s (Some ts)), ts. auto.
      * exists e, ts'. auto.
    + intros (e & ts' & [<- | Hin] & Ht & Hh).
      * left. simpl in Ht. injection Ht as <-. exact Hh.
      * right. exists e, ts'. auto.
  - rewrite IH. split.
    + intros (e & ts' & Hin & Ht & Hh). exists e, ts'. auto.
    + intros (e & ts' & [<- | Hin] & Ht & Hh); [discriminate|].
      exists e, ts'. auto.
Qed.

(** X8.  When every valid timestamp has its hour in 0-23, the hour
    listing, which walks [range(24)] and skips the hours without events,
    shows exactly the entries of the hour histogram, in the same
    ascending order. *)
Theorem hour_listing_is_histogram (df : DataFrame) :
  (forall e ts, In e df -> timestamp e = Some ts -> ts_hour ts < 24) ->
  hour_lines df = hourly_counts df.
Proof.
  intros Hhours. unfold hour_lines.
  apply (listing_is_series 24 0).
  - apply value_counts_ascending.
  - apply value_counts_positive.
  - apply Forall_forall. intros [h c] Hin. simpl.
    assert (Hidx : In h (Series.index (hourly_counts df))).
    { change h with (fst (h, c)). now apply in_map. }
    apply hourly_index_hours in Hidx.
    destruct Hidx as (e & ts & He & Ht & <-).
    specialize (Hhours e ts He Ht). lia.
Qed.

Lemma hour_listing_is_histogram_witness :
  let at_hour h :=
    mkEvent "ET SCAN" (Some (mkTimestamp (mkDate 2024 1 15) h 0 0)) in
  let df := [at_hour 23; at_hour 0; mkEvent "ET SCAN" None; at_hour 23] in
  (forall e ts, In e df -> timestamp e = Some ts -> ts_hour ts < 24) /\
  hour_lines df = hourly_counts df.
Proof.
  intros at_hour df.
  assert (Hhours : forall e ts,
             In e df -> timestamp e = Some ts -> ts_hour ts < 24).
  { intros e ts [<- | [<- | [<- | [<- | []]]]] Ht; simpl in Ht;
      try discriminate; injection Ht as <-; simpl; lia. }
  split; [exact Hhours|].
  exact (hour_listing_is_histogram df Hhours).
Defined.

(* ================================================================== *)
(** ** Cyclic pattern detector: scan, edges and report                 *)
(* ================================================================== *)

(** X10.  The scan returns the least start index [i] with
    [i + 2*l < len] whose window equals the next one, and returns nothing
    exactly when no such index exists. *)
Theorem detector_reports_least_repeat (tokens : list string) (l : nat) :
  match find_repeat tokens l with
  | Some i =>
      i + l * 2 < List.length tokens /\
      pattern_at tokens i l = next_pattern_at tokens i l /\
      forall k, k < i -> pattern_at tokens k l <> next_pattern_at tokens k l
  | None =>
      forall k, k + l * 2 < List.length tokens ->
                pattern_at tokens k l <> next_pattern_at tokens k l
  end.
Proof.
  destruct (find_repeat tokens l) as [i|] eqn:E.
  - now apply find_repeat_Some.
  - now apply find_repeat_None.
Qed.



(** X12.  With window length 0 every non-empty sequence matches at index
    0, empty window against empty window, and the extension loop runs to
    its end: the count is 9. *)
Theorem zero_length_window_always_repeats (tokens : list string) :
  tokens <> [] ->
  find_repeat tokens 0 = Some 0 /\
  count_repetitions tokens 0 0 = 9 /\
  cyclic_patterns [0] tokens = [Checking 0; Found 0 0 []; Repeats 0 9].
Proof.
  intros Hne. destruct tokens as [|t tokens]; [congruence|].
  assert (E : find_repeat (t :: tokens) 0 = Some 0).
  { unfold find_repeat, range_len.
    replace (Z.to_nat (Z.of_nat (List.length (t :: tokens)) - Z.of_nat 0 * 2))
      with (S (List.length tokens)) by (simpl List.length; lia).
    reflexivity. }
  assert (C : count_repetitions (t :: tokens) 0 0 = 9) by reflexivity.
  split; [exact E|]. split; [exact C|].
  unfold cyclic_patterns. cbn [fold_left check_length].
  rewrite E, C. reflexivity.
Qed.

Lemma zero_length_window_always_repeats_witness :
  ["ET SCAN"] <> [] /\
  find_repeat ["ET SCAN"] 0 = Some 0 /\
  count_repetitions ["ET SCAN"] 0 0 = 9 /\
  cyclic_patterns [0] ["ET SCAN"] = [Checking 0; Found 0 0 []; Repeats 0 9].
Proof.
  assert (Hne : ["ET SCAN"] <> []) by discriminate.
  split; [exact Hne|].
  exact (zero_length_window_always_repeats ["ET SCAN"] Hne).
Defined.

Lemma slice_nth_error {A} (tokens : list A) (a l j : nat) :
  j < l -> nth_error (slice tokens a (a + l)) j = nth_error tokens (a + j).
Proof.
  intros Hj. unfold slice. replace (a + l - a) with l by lia.
  rewrite nth_error_firstn, nth_error_skipn.
  apply Nat.ltb_lt in Hj. now rewrite Hj.
Qed.

(** After a match at [i] with count [r], the windows 0, 1, ..., r all fit
    in the sequence and all equal the pattern. *)
Lemma matched_windows_equal (tokens : list string) (l i q : nat) :
  find_repeat tokens l = Some i ->
  q <= count_repetitions tokens i l ->
  i + l * q + l <= List.length tokens /\
  slice tokens (i + l * q) (i + l * q + l) = pattern_at tokens i l.
Proof.
  intros Hfind Hq. apply find_repeat_Some in Hfind.
  destruct Hfind as (Hlen & Heq & _).
  unfold count_repetitions in Hq.
  destruct (extend_spec tokens (pattern_at tokens i l) i l 2 (10 - 2) 1)
    as (m & E & _ & Hall & _).
  rewrite E in Hq.
  destruct q as [|[|q]].
  - rewrite Nat.mul_0_r, Nat.add_0_r. split; [lia | reflexivity].
  - split; [lia|]. rewrite Heq. unfold next_pattern_at.
    f_equal; lia.
  - replace (S (S q)) with (2 + q) by lia. apply Hall. lia.
Qed.

(** X13.  A reported match is a periodic run: after a match at [i] with
    count [r], the [r + 1] windows from [i] lie inside the sequence, and
    every signature of the first [r] of them equals the one [l]
    positions later. *)
Theorem matched_run_is_periodic (tokens : list string) (l i : nat) :
  find_repeat tokens l = Some i ->
  let r := count_repetitions tokens i l in
  i + (r + 1) * l <= List.length tokens /\
  forall m, m < r * l ->
            nth_error tokens (i + m) = nth_error tokens (i + m + l).
Proof.
  intros Hfind r. split.
  - destruct (matched_windows_equal tokens l i r Hfind (Nat.le_refl _))
      as [Hfit _]. lia.
  - intros m Hm.
    assert (Hl : l <> 0) by (intros ->; lia).
    pose proof (Nat.div_mod_eq m l) as Hdiv.
    pose proof (Nat.mod_upper_bound m l Hl) as Hmod.
    assert (Hq : m / l < r).
    { apply Nat.Div0.div_lt_upper_bound. lia. }
    set (q := m / l) in *. set (j := m mod l) in *.
    destruct (matched_windows_equal tokens l i q Hfind) as [_ E1];
      [unfold r in Hq; lia|].
    destruct (matched_windows_equal tokens l i (S q) Hfind) as [_ E2];
      [unfold r in Hq; lia|].
    replace (i + m) with (i + l * q + j) by lia.
    replace (i + l * q + j + l) with (i + l * S q + j) by lia.
    rewrite <- (slice_nth_error tokens (i + l * q) l j Hmod).
    rewrite <- (slice_nth_error tokens (i + l * S q) l j Hmod).
    now rewrite E1, E2.
Qed.

Lemma matched_run_is_periodic_witness :
  let tokens := ["P"; "A"; "B"; "A"; "B"; "A"; "B"; "Q"] in
  find_repeat tokens 2 = Some 1 /\
  1 + (count_repetitions tokens 1 2 + 1) * 2 <= List.length tokens /\
  forall m, m < count_repetitions tokens 1 2 * 2 ->
            nth_error tokens (1 + m) = nth_error tokens (1 + m + 2).
Proof.
  intros tokens.
  assert (Hfind : find_repeat tokens 2 = Some 1) by reflexivity.
  split; [exact Hfind|].
  exact (matched_run_is_periodic tokens 2 1 Hfind).
Defined.

(** *** The report *)

Lemma line_holds_weaken (ls ls' : list nat) (tokens : list string)
  (ln : line) :
  (forall l, In l ls -> In l ls') ->
  line_holds ls tokens ln -> line_holds ls' tokens ln.
Proof.
  intros Hsub. destruct ln; simpl; intuition.
Qed.

(** One turn of the loop adds the [Checking] line of its length and then
    only lines that hold for that length. *)
Lemma check_length_lines (tokens : list string) (flag : bool)
  (out : list line) (l : nat) :
  exists new,
    snd (check_length tokens (flag, out) l) = out ++ Checking l :: new /\
    Forall (fun ln => is_checking ln = false /\ line_holds [l] tokens ln) new /\
    (fst (check_length tokens (flag, out) l) = true ->
     flag = true \/ find_repeat tokens l <> None) /\
    (flag = true -> fst (check_length tokens (flag, out) l) = true /\
                    Forall (fun ln => is_not_found ln = false) new) /\
    (flag = false -> find_repeat tokens l = None ->
     fst (check_length tokens (flag, out) l) = false /\ new = [NotFound l]) /\
    (find_repeat tokens l <> None ->
     fst (check_length tokens (flag, out) l) = true).
Proof.
  unfold check_length.
  destruct (find_repeat tokens l) as [i|] eqn:E.
  - pose proof (count_repetitions_bounds tokens i l) as Hb.
    assert (HF : is_checking (Found l i (pattern_at tokens i l)) = false /\
                 line_holds [l] tokens (Found l i (pattern_at tokens i l))).
    { simpl. rewrite E. auto. }
    destruct (1 <? count_repetitions tokens i l) eqn:R.
    + apply Nat.ltb_lt in R.
      exists [Found l i (pattern_at tokens i l);
              Repeats l (count_repetitions tokens i l)].
      cbn [fst snd]. rewrite <- !app_assoc. simpl app.
      split; [reflexivity|]. split.
      { constructor; [exact HF|]. constructor; [|constructor].
        simpl. split; [reflexivity|]. split; [auto|].
        exists i. rewrite E. repeat split; lia. }
      split; [intros _; right; discriminate|].
      split; [intros _; split; [reflexivity | repeat constructor]|].
      split; [intros _ H; discriminate H | reflexivity].
    + exists [Found l i (pattern_at tokens i l)].
      cbn [fst snd]. rewrite <- !app_assoc. simpl app.
      split; [reflexivity|]. split; [constructor; [exact HF | constructor]|].
      split; [intros _; right; discriminate|].
      split; [intros _; split; [reflexivity | repeat constructor]|].
      split; [intros _ H; discriminate H | reflexivity].
  - destruct flag; cbn [negb fst snd].
    + exists []. rewrite <- !app_assoc. simpl app.
      split; [reflexivity|]. split; [constructor|].
      split; [intros _; now left|].
      split; [intros _; split; [reflexivity | constructor]|].
      split; [intros H; discriminate H | intros H; congruence].
    + exists [NotFound l]. rewrite <- !app_assoc. simpl app.
      split; [reflexivity|]. split.
      { constructor; [|constructor]. simpl. rewrite E. auto. }
      split; [intros H; discriminate H|].
      split; [intros H; discriminate H|].
      split; [intros _ _; split; reflexivity | intros H; congruence].
Qed.

Lemma filter_none {X} (p : X -> bool) (l : list X) :
  Forall (fun x => p x = false) l -> filter p l = [].
Proof.
  induction 1 as [|x l Hx Hl IH]; simpl; [reflexivity|]. now rewrite Hx.
Qed.

(** The lines printed by the loop over [lengths], started with the flag
    [flag] and the lines [out]. *)
Lemma run_lines (tokens : list string) (lengths : list nat) (flag : bool)
  (out : list line) :
  exists new,
    snd (fold_left (check_length tokens) lengths (flag, out)) = out ++ new /\
    filter is_checking new = map Checking lengths /\
    Forall (line_holds lengths tokens) new /\
    (flag = true -> Forall (fun ln => is_not_found ln = false) new) /\
    (flag = false ->
     (forall l, In l lengths -> find_repeat tokens l = None) ->
     new = flat_map (fun l => [Checking l; NotFound l]) lengths).
Proof.
  revert flag out. induction lengths as [|l ls IH]; intros flag out.
  - exists []. simpl. rewrite app_nil_r. repeat split; auto.
  - cbn [fold_left].
    destruct (check_length_lines tokens flag out l)
      as (new1 & E1 & H1 & _ & Htrue & Hfalse & _).
    destruct (check_length tokens (flag, out) l) as [flag' out'] eqn:Est.
    cbn [fst snd] in *.
    destruct (IH flag' out') as (new2 & E2 & Hc2 & H2 & Htrue2 & Hfalse2).
    exists (Checking l :: new1 ++ new2). split; [|split; [|split; [|split]]].
    + rewrite E2, E1, <- app_assoc. reflexivity.
    + cbn [filter is_checking map]. f_equal.
      rewrite filter_app, Hc2, filter_none; [reflexivity|].
      eapply Forall_impl; [|exact H1]. now intros ln [Hln _].
    + constructor; [simpl; auto|]. apply Forall_app. split.
      * eapply Forall_impl; [|exact H1]. intros ln [_ Hln].
        eapply line_holds_weaken; [|exact Hln].
        intros x [<- | []]. now left.
      * eapply Forall_impl; [|exact H2]. intros ln Hln.
        eapply line_holds_weaken; [|exact Hln].
        intros x Hx. now right.
    + intros Hflag. destruct (Htrue Hflag) as [Ef Hn1].
      constructor; [reflexivity|]. apply Forall_app. split; [exact Hn1|].
      now apply Htrue2.
    + intros Hflag Hnone.
      destruct (Hfalse Hflag (Hnone l (or_introl eq_refl))) as [Ef ->].
      rewrite (Hfalse2 Ef) by (intros x Hx; apply Hnone; now right).
      reflexivity.
Qed.

(** X14.  The report is sound and ordered by the configuration: it has
    one "checking" line per configured length, in order; a "found" line
    carries the least matching start index of its length and the window
    there; a "repeats" line carries the count of that match, which is
    between 2 and 9; a "not found" line stands for a length without
    match. *)
Theorem report_lines_are_sound (lengths : list nat) (tokens : list string) :
  filter is_checking (cyclic_patterns lengths tokens) = map Checking lengths /\
  Forall (line_holds lengths tokens) (cyclic_patterns lengths tokens).
Proof.
  unfold cyclic_patterns.
  destruct (run_lines tokens lengths false []) as (new & E & Hc & H & _).
  rewrite E. simpl. auto.
Qed.

(** X15.  When no configured length has a match, the report is the
    "checking" line and the "not found" line of each length, in the
    configured order. *)
Theorem no_match_reports_not_found_everywhere (lengths : list nat)
  (tokens : list string) :
  (forall l, In l lengths -> find_repeat tokens l = None) ->
  cyclic_patterns lengths tokens
  = flat_map (fun l => [Checking l; NotFound l]) lengths.
Proof.
  intros Hnone. unfold cyclic_patterns.
  destruct (run_lines tokens lengths false []) as (new & E & _ & _ & _ & H).
  rewrite E. simpl. now apply H.
Qed.

Lemma no_match_reports_not_found_everywhere_witness :
  let tokens := ["A"; "B"; "C"; "D"; "E"; "F"; "G"; "H"] in
  (forall l, In l pattern_lengths_to_check -> find_repeat tokens l = None) /\
  cyclic_patterns pattern_lengths_to_check tokens
  = flat_map (fun l => [Checking l; NotFound l]) pattern_lengths_to_check.
Proof.
  intros tokens.
  assert (Hnone : forall l, In l pattern_lengths_to_check ->
                            find_repeat tokens l = None).
  { intros l [<- | [<- | [<- | []]]]; reflexivity. }
  split; [exact Hnone|].
  exact (no_match_reports_not_found_everywhere
           pattern_lengths_to_check tokens Hnone).
Defined.

(** X16.  Once a length has matched, no later length gets a "not found"
    line: the report of the whole configuration is the report up to the
    matching length followed by lines none of which is "not found". *)
Theorem not_found_never_follows_a_match (before after : list nat) (l : nat)
  (tokens : list string) :
  find_repeat tokens l <> None ->
  exists tail,
    cyclic_patterns (before ++ l :: after) tokens
    = cyclic_patterns (before ++ [l]) tokens ++ tail /\
    forall l', ~ In (NotFound l') tail.
Proof.
  intros Hfound. unfold cyclic_patterns.
  replace (before ++ l :: after) with ((before ++ [l]) ++ after)
    by (rewrite <- app_assoc; reflexivity).
  rewrite fold_left_app.
  assert (Hflag : fst (fold_left (check_length tokens) (before ++ [l])
                                 (false, [])) = true).
  { rewrite fold_left_app. cbn [fold_left].
    destruct (fold_left (check_length tokens) before (false, []))
      as [flag out].
    destruct (check_length_lines tokens flag out l)
      as (_ & _ & _ & _ & _ & _ & H).
    now apply H. }
  destruct (fold_left (check_length tokens) (before ++ [l]) (false, []))
    as [flag out]. cbn [fst snd] in *. subst flag.
  destruct (run_lines tokens after true out) as (new & E & _ & _ & Hn & _).
  exists new. split; [exact E|].
  intros l' Hin. specialize (Hn eq_refl). rewrite Forall_forall in Hn.
  specialize (Hn _ Hin). discriminate.
Qed.

Lemma not_found_never_follows_a_match_witness :
  let tokens := ["A"; "B"; "C"; "A"; "B"; "C"; "D"] in
  find_repeat tokens 3 <> None /\
  exists tail,
    cyclic_patterns ([] ++ 3 :: [5; 8]) tokens
    = cyclic_patterns ([] ++ [3]) tokens ++ tail /\
    forall l', ~ In (NotFound l') tail.
Proof.
  intros tokens.
  assert (Hfound : find_repeat tokens 3 <> None) by discriminate.
  split; [exact Hfound|].
  exact (not_found_never_follows_a_match [] [5; 8] 3 tokens Hfound).
Defined.

(* ================================================================== *)
(** ** Date x Hour matrix: labels and margins                          *)
(* ================================================================== *)

Section AscendingUnique.
Context {K : Type} `{OrderedLaws K}.

(** Two strictly ascending lists with the same members are equal. *)
Lemma ascending_unique (l1 l2 : list K) :
  StronglySorted Series.key_lt l1 -> StronglySorted Series.key_lt l2 ->
  (forall x, In x l1 <-> In x l2) -> l1 = l2.
Proof.
  intros H1. revert l2. induction H1 as [|a l1 Hs1 IH Ha]; intros l2 H2 Hmem.
  - destruct l2 as [|b l2]; [reflexivity|].
    destruct (proj2 (Hmem b) (or_introl eq_refl)).
  - destruct H2 as [|b l2 Hs2 Hb].
    + destruct (proj1 (Hmem a) (or_introl eq_refl)).
    + rewrite Forall_forall in Ha, Hb.
      assert (Eab : a = b).
      { destruct (proj1 (Hmem a) (or_introl eq_refl)) as [E | Hin];
          [now symmetry|].
        destruct (proj2 (Hmem b) (or_introl eq_refl)) as [E | Hin'];
          [exact E|].
        pose proof (kltb_trans _ _ _ (Ha _ Hin') (Hb _ Hin)) as L.
        rewrite kltb_irrefl in L. discriminate. }
      subst b. f_equal. apply IH; [exact Hs2|].
      intros x. split; intros Hx.
      * destruct (proj1 (Hmem x) (or_intror Hx)) as [E | Hin]; [|exact Hin].
        subst x. apply Ha, key_lt_neq in Hx. congruence.
      * destruct (proj2 (Hmem x) (or_intror Hx)) as [E | Hin]; [|exact Hin].
        subst x. apply Hb, key_lt_neq in Hx. congruence.
Qed.

End AscendingUnique.

Lemma group_keys_dates (df : DataFrame) :
  map fst (Series.dropna (map group_key df)) = Series.dropna (map date df).
Proof.
  induction df as [|[s [ts|]] df IH]; simpl; [reflexivity | | exact IH].
  now rewrite IH.
Qed.

Lemma group_keys_hours (df : DataFrame) :
  map snd (Series.dropna (map group_key df)) = Series.dropna (map hour df).
Proof.
  induction df as [|[s [ts|]] df IH]; simpl; [reflexivity | | exact IH].
  now rewrite IH.
Qed.

Lemma group_index_level {X} (f : Date * nat -> X)
  (df : DataFrame) (x : X) :
  In x (map f (Series.index (group_counts df))) <->
  In x (map f (Series.dropna (map group_key df))).
Proof.
  rewrite !in_map_iff. split; intros [k [E Hin]]; exists k; (split; [exact E|]);
    now apply (value_counts_index_In k (map group_key df)).
Qed.

Lemma pivot_index_is_daily_index (df : DataFrame) :
  pv_index (pivot_table df) = Series.index (daily_counts df).
Proof.
  apply ascending_unique.
  - apply level_ascending.
  - apply (value_counts_ascending (map date df)).
  - intros d. cbn [pivot_table pv_index]. rewrite level_In.
    rewrite (group_index_level fst), group_keys_dates.
    symmetry. apply value_counts_index_In.
Qed.

Lemma pivot_columns_is_hourly_index (df : DataFrame) :
  pv_columns (pivot_table df) = Series.index (hourly_counts df).
Proof.
  apply ascending_unique.
  - apply level_ascending.
  - apply (value_counts_ascending (map hour df)).
  - intros h. cbn [pivot_table pv_columns]. rewrite level_In.
    rewrite (group_index_level snd), group_keys_hours.
    symmetry. apply value_counts_index_In.
Qed.

(** X18.  The matrix has exactly the rows of the date histogram and the
    columns of the hour histogram, in the same order: a date or an hour
    without events has no row or column. *)
Theorem heatmap_labels_are_histogram_indexes (df : DataFrame) :
  pv_index (pivot_table df) = Series.index (daily_counts df) /\
  pv_columns (pivot_table df) = Series.index (hourly_counts df).
Proof.
  split.
  - apply pivot_index_is_daily_index.
  - apply pivot_columns_is_hourly_index.
Qed.

(** The stored or defaulted cell is the number of events of its date and
    hour. *)
Lemma pivot_cell_count (df : DataFrame) (d : Date) (h : nat) :
  cell (pivot_table df) d h = events_on d h df.
Proof.
  unfold cell, pivot_table; cbn [pv_index pv_columns pv_values].
  set (keys := Series.index (group_counts df)).
  assert (Hkeys : ~ In (d, h) keys -> events_on d h df = 0).
  { intros Hn. rewrite <- group_counts_get. now apply get_notin. }
  rewrite locate_map.
  destruct (existsb (keqb d) (level (map fst keys))) eqn:Ed.
  - rewrite locate_map.
    destruct (existsb (keqb h) (level (map snd keys))) eqn:Eh.
    + apply group_counts_get.
    + symmetry. apply Hkeys. intros Hin.
      apply not_true_iff_false in Eh. apply Eh.
      apply existsb_keqb, level_In.
      change h with (snd (d, h)). now apply in_map.
  - symmetry. apply Hkeys. intros Hin.
    apply not_true_iff_false in Ed. apply Ed.
    apply existsb_keqb, level_In.
    change d with (fst (d, h)). now apply in_map.
Qed.

Lemma events_on_cons (d : Date) (h : nat) (e : Event) (df : DataFrame) :
  events_on d h (e :: df)
  = (match timestamp e with
     | Some ts => if date_eqb (ts_date ts) d && (ts_hour ts =? h) then 1 else 0
     | None => 0
     end) + events_on d h df.
Proof.
  unfold events_on. simpl.
  destruct (timestamp e) as [ts|]; [|reflexivity].
  destruct (date_eqb (ts_date ts) d && (ts_hour ts =? h)); reflexivity.
Qed.

Lemma events_on_date_cons (d : Date) (e : Event) (df : DataFrame) :
  events_on_date d (e :: df)
  = (match timestamp e with
     | Some ts => if date_eqb (ts_date ts) d then 1 else 0
     | None => 0
     end) + events_on_date d df.
Proof.
  unfold events_on_date. simpl.
  destruct (timestamp e) as [ts|]; [|reflexivity].
  destruct (date_eqb (ts_date ts) d); reflexivity.
Qed.

Lemma events_in_hour_cons (h : nat) (e : Event) (df : DataFrame) :
  events_in_hour h (e :: df)
  = (match timestamp e with
     | Some ts => if ts_hour ts =? h then 1 else 0
     | None => 0
     end) + events_in_hour h df.
Proof.
  unfold events_in_hour, hour. simpl.
  destruct (timestamp e) as [ts|]; [|reflexivity]. simpl.
  destruct (ts_hour ts =? h); reflexivity.
Qed.

(** Over column labels without repetition that cover the hours of the
    events, the counts of one date add up to the events of that date. *)
Lemma sum_over_hours (cols : list nat) (d : Date) (df : DataFrame) :
  NoDup cols ->
  (forall e ts, In e df -> timestamp e = Some ts -> In (ts_hour ts) cols) ->
  list_sum (map (fun h => events_on d h df) cols) = events_on_date d df.
Proof.
  intros Hnd. induction df as [|e df IH]; intros Hcov.
  - apply list_sum_map_zero.
  - rewrite (list_sum_map_ext _ _ _ (fun h _ => events_on_cons d h e df)).
    rewrite list_sum_map_plus, IH
      by (intros e' ts He'; apply Hcov; now right).
    rewrite events_on_date_cons. f_equal.
    destruct (timestamp e) as [ts|] eqn:Et; [|apply list_sum_map_zero].
    destruct (date_eqb (ts_date ts) d); cbn [andb];
      [|apply list_sum_map_zero].
    rewrite (list_sum_map_ext _ (fun h => if keqb h (ts_hour ts)
                                           then 1 else 0)).
    + apply indicator_sum; [exact Hnd|].
      apply (Hcov e ts); [now left | exact Et].
    + intros h _. simpl. now rewrite Nat.eqb_sym.
Qed.

(** The same over row labels, for the counts of one hour. *)
Lemma sum_over_dates (rows : list Date) (h : nat) (df : DataFrame) :
  NoDup rows ->
  (forall e ts, In e df -> timestamp e = Some ts -> In (ts_date ts) rows) ->
  list_sum (map (fun d => events_on d h df) rows) = events_in_hour h df.
Proof.
  intros Hnd. induction df as [|e df IH]; intros Hcov.
  - apply list_sum_map_zero.
  - rewrite (list_sum_map_ext _ _ _ (fun d _ => events_on_cons d h e df)).
    rewrite list_sum_map_plus, IH
      by (intros e' ts He'; apply Hcov; now right).
    rewrite events_in_hour_cons. f_equal.
    destruct (timestamp e) as [ts|] eqn:Et; [|apply list_sum_map_zero].
    destruct (ts_hour ts =? h).
    + rewrite (list_sum_map_ext _ (fun d => if keqb d (ts_date ts)
                                             then 1 else 0)).
      * apply indicator_sum; [exact Hnd|].
        apply (Hcov e ts); [now left | exact Et].
      * intros d _. rewrite andb_true_r. simpl. now rewrite date_eqb_sym.
    + rewrite (list_sum_map_ext _ (fun _ => 0)).
      * apply list_sum_map_zero.
      * intros d _. now rewrite andb_false_r.
Qed.

Lemma daily_index_dates (d : Date) (df : DataFrame) :
  (exists e ts, In e df /\ timestamp e = Some ts /\ ts_date ts = d) ->
  In d (Series.index (daily_counts df)).
Proof.
  intros (e & ts & Hin & Ht & <-).
  unfold daily_counts. apply value_counts_index_In.
  induction df as [|[s [ts'|]] df IH]; simpl in *; [contradiction| |].
  - destruct Hin as [E | Hin].
    + left. subst e. simpl in Ht. now injection Ht as ->.
    + right. now apply IH.
  - destruct Hin as [E | Hin]; [subst e; discriminate|]. now apply IH.
Qed.

(** X17.  The margins of the matrix are the histograms: the cells of a
    date add up to the number of events of that date, and the cells of an
    hour to the number of events of that hour. *)
Theorem heatmap_margins_are_histograms (df : DataFrame) :
  (forall d, row_total (pivot_table df) d = events_on_date d df) /\
  (forall h, col_total (pivot_table df) h = events_in_hour h df).
Proof.
  split.
  - intros d. unfold row_total.
    rewrite (list_sum_map_ext _ _ _
               (fun h _ => pivot_cell_count df d h)).
    apply sum_over_hours.
    + rewrite pivot_columns_is_hourly_index.
      apply ascending_NoDup, value_counts_ascending.
    + intros e ts He Ht. rewrite pivot_columns_is_hourly_index.
      apply hourly_index_hours. now exists e, ts.
  - intros h. unfold col_total.
    rewrite (list_sum_map_ext _ _ _
               (fun d _ => pivot_cell_count df d h)).
    apply sum_over_dates.
    + rewrite pivot_index_is_daily_index.
      apply ascending_NoDup, value_counts_ascending.
    + intros e ts He Ht. rewrite pivot_index_is_daily_index.
      apply daily_index_dates. now exists e, ts.
Qed.

(* ================================================================== *)
(** ** Summary statistics and the run: when they succeed               *)
(* ================================================================== *)

Lemma ts_ltb_tuple (a b : Timestamp) :
  ts_ltb a b = kltb (ts_tuple a) (ts_tuple b).
Proof. reflexivity. Qed.

Section OrderFacts.
Context {K : Type} `{OrderedLaws K}.

Lemma kltb_asym (a b : K) : kltb a b = true -> kltb b a = false.
Proof.
  intros L. apply not_true_iff_false. intros L'.
  pose proof (kltb_trans _ _ _ L L') as Haa.
  rewrite kltb_irrefl in Haa. discriminate.
Qed.

(** "Not above" is transitive. *)
Lemma kltb_false_trans (a b c : K) :
  kltb b a = false -> kltb c b = false -> kltb c a = false.
Proof.
  intros Hab Hbc. apply not_true_iff_false. intros Hca.
  destruct (keqb b a) eqn:E.
  - apply keqb_eq in E. subst b. congruence.
  - pose proof (kltb_total _ _ Hab E) as Lab.
    pose proof (kltb_trans _ _ _ Hca Lab). congruence.
Qed.

Context {X : Type} (key : X -> K).

(** The running minimum of a [fold_left] is an element of the list and
    nothing in the list is below it. *)
Lemma fold_min_spec (r : list X) (t : X) :
  let m := fold_left (fun m x => if kltb (key x) (key m) then x else m) r t in
  In m (t :: r) /\
  forall x, In x (t :: r) -> kltb (key x) (key m) = false.
Proof.
  revert t. induction r as [|y r IH]; intros t; cbn [fold_left].
  - split; [now left|]. intros x [<- | []]. apply kltb_irrefl.
  - specialize (IH (if kltb (key y) (key t) then y else t)).
    destruct IH as [Hin Hlow]. cbv zeta. split.
    + destruct Hin as [E | Hin]; [|now right; right].
      rewrite <- E.
      destruct (kltb (key y) (key t)); [right; now left | now left].
    + pose proof (Hlow _ (or_introl eq_refl)) as Hhead.
      intros x Hx. destruct Hx as [E | [E | Hx]]; [| |apply Hlow; now right];
        subst x; destruct (kltb (key y) (key t)) eqn:L.
      * apply kltb_asym in L.
        exact (kltb_false_trans _ _ _ Hhead L).
      * exact Hhead.
      * exact Hhead.
      * exact (kltb_false_trans _ _ _ Hhead L).
Qed.

Lemma fold_max_spec (r : list X) (t : X) :
  let m := fold_left (fun m x => if kltb (key m) (key x) then x else m) r t in
  In m (t :: r) /\
  forall x, In x (t :: r) -> kltb (key m) (key x) = false.
Proof.
  revert t. induction r as [|y r IH]; intros t; cbn [fold_left].
  - split; [now left|]. intros x [<- | []]. apply kltb_irrefl.
  - specialize (IH (if kltb (key t) (key y) then y else t)).
    destruct IH as [Hin Hup]. cbv zeta. split.
    + destruct Hin as [E | Hin]; [|now right; right].
      rewrite <- E.
      destruct (kltb (key t) (key y)); [right; now left | now left].
    + pose proof (Hup _ (or_introl eq_refl)) as Hhead.
      intros x Hx. destruct Hx as [E | [E | Hx]]; [| |apply Hup; now right];
        subst x; destruct (kltb (key t) (key y)) eqn:L.
      * apply kltb_asym in L.
        exact (kltb_false_trans _ _ _ L Hhead).
      * exact Hhead.
      * exact Hhead.
      * exact (kltb_false_trans _ _ _ L Hhead).
Qed.

End OrderFacts.

Lemma dropna_In {X} (col : list (option X)) (x : X) :
  In x (Series.dropna col) <-> In (Some x) col.
Proof.
  induction col as [|[y|] col IH]; simpl.
  - tauto.
  - rewrite IH. split; intros [E | Hin]; auto; left; congruence.
  - rewrite IH. split; [auto | intros [E | Hin]; [discriminate | exact Hin]].
Qed.

(** X21.  The period of the summary brackets the data: the start is a
    timestamp of the column that no timestamp precedes, the end one that
    none follows; both are missing exactly when the column has no valid
    timestamp. *)
Theorem period_brackets_every_timestamp (col : list (option Timestamp)) :
  match ts_min col, ts_max col with
  | Some lo, Some hi =>
      In (Some lo) col /\ In (Some hi) col /\
      forall t, In (Some t) col ->
                ts_ltb t lo = false /\ ts_ltb hi t = false
  | None, None => forall t, ~ In (Some t) col
  | _, _ => False
  end.
Proof.
  unfold ts_min, ts_max.
  destruct (Series.dropna col) as [|t r] eqn:E.
  - intros t Hin. apply dropna_In in Hin. rewrite E in Hin. contradiction.
  - destruct (fold_min_spec ts_tuple r t) as [Hin1 Hlow].
    destruct (fold_max_spec ts_tuple r t) as [Hin2 Hup].
    cbv zeta in *. rewrite <- E in Hin1, Hin2, Hlow, Hup.
    split; [now apply dropna_In|]. split; [now apply dropna_In|].
    intros x Hx. apply dropna_In in Hx. split.
    + rewrite ts_ltb_tuple. now apply Hlow.
    + rewrite ts_ltb_tuple. now apply Hup.
Qed.

(** *** The order on signatures *)

Lemma ascii_compare_refl (c : ascii) : Ascii.compare c c = Eq.
Proof. unfold Ascii.compare. apply N.compare_refl. Qed.

Lemma string_compare_refl (s : string) : String.compare s s = Eq.
Proof.
  induction s as [|c s IH]; simpl; [reflexivity|].
  now rewrite ascii_compare_refl.
Qed.

Lemma string_compare_trans (a b c : string) :
  String.compare a b = Lt -> String.compare b c = Lt ->
  String.compare a c = Lt.
Proof.
  revert b c. induction a as [|x a IH]; intros [|y b] [|z c]; simpl;
    try congruence.
  destruct (Ascii.compare x y) eqn:Exy; try discriminate.
  - apply Ascii.compare_eq_iff in Exy. subst y.
    destruct (Ascii.compare x z); try congruence. apply IH.
  - intros _. destruct (Ascii.compare y z) eqn:Eyz; try discriminate.
    + apply Ascii.compare_eq_iff in Eyz. subst z. now rewrite Exy.
    + intros _. unfold Ascii.compare in *.
      rewrite N.compare_lt_iff in Exy, Eyz.
      assert (L : (N_of_ascii x < N_of_ascii z)%N) by lia.
      apply N.compare_lt_iff in L. now rewrite L.
Qed.

#[export] Instance string_OrderedLaws : OrderedLaws string.
Proof.
  split; simpl.
  - apply String.eqb_eq.
  - intros a. unfold String.ltb. now rewrite string_compare_refl.
  - intros a b c. unfold String.ltb.
    destruct (String.compare a b) eqn:Eab; try discriminate.
    destruct (String.compare b c) eqn:Ebc; try discriminate.
    now rewrite (string_compare_trans a b c Eab Ebc).
  - intros a b. unfold String.ltb. rewrite String.eqb_neq.
    rewrite (String.compare_antisym b a).
    destruct (String.compare a b) eqn:Eab; try discriminate.
    + apply String.compare_eq_iff in Eab. congruence.
    + reflexivity.
Qed.

Section ModeFacts.
Context {K : Type} `{OrderedLaws K}.

(** [mode()[0]] of a column with a non-null entry: a most frequent key,
    the least one among the most frequent. *)
Lemma mode0_spec (col : list (option K)) :
  Series.dropna col <> [] ->
  exists k,
    Series.mode0 col = Ok k /\
    In k (Series.dropna col) /\
    forall k',
      List.length (filter (fun x => keqb k' x) (Series.dropna col))
      <= List.length (filter (fun x => keqb k x) (Series.dropna col)) /\
      (kltb k' k = true ->
       List.length (filter (fun x => keqb k' x) (Series.dropna col))
       < List.length (filter (fun x => keqb k x) (Series.dropna col))).
Proof.
  intros Hne. unfold Series.mode0.
  pose proof (value_counts_ascending col) as Hasc.
  pose proof (value_counts_positive col) as Hpos.
  pose proof (value_counts_nonempty col Hne) as Hne'.
  pose proof (fun k => value_counts_get k col) as Hget.
  pose proof (fun k => value_counts_index_In k col) as Hidx.
  destruct (Series.value_counts_sorted col) as [|x r]; [congruence|].
  destruct (argmax_from_spec x r Hasc Hpos) as (Hm & Hmax & Hfirst).
  destruct (argmax_from_split x r) as (l1 & l2 & E & _).
  exists (fst (Series.argmax_from x r)). split; [reflexivity|]. split.
  - apply Hidx. rewrite E. unfold Series.index.
    rewrite map_app. apply in_or_app. right. now left.
  - intros k'. rewrite <- !Hget, Hm. split; [apply Hmax | apply Hfirst].
Qed.

End ModeFacts.

(** *** The summary *)

Lemma dropna_timestamp_length (df : DataFrame) :
  List.length (Series.dropna (map timestamp df)) = total_valid_events df.
Proof.
  unfold total_valid_events.
  induction df as [|[s [ts|]] df IH]; simpl; auto.
Qed.

Lemma dropna_map_total {X Y} (f : X -> Y) (l : list X) :
  Series.dropna (map (fun x => Some (f x)) l) = map f l.
Proof. induction l; simpl; [reflexivity | now f_equal]. Qed.

Lemma nodup_length_le (col : list string) :
  List.length (nodup string_dec col) <= List.length col.
Proof.
  induction col as [|x col IH]; simpl; [lia|].
  destruct (in_dec string_dec x col); simpl; lia.
Qed.

Lemma nunique_positive (col : list string) : col <> [] -> 0 < nunique col.
Proof.
  unfold nunique. destruct col as [|x col]; [congruence|]. intros _.
  assert (Hin : In x (nodup string_dec (x :: col)))
    by (apply nodup_In; now left).
  destruct (nodup string_dec (x :: col)); [contradiction | simpl; lia].
Qed.

Lemma valid_nonempty (df : DataFrame) :
  0 < total_valid_events df -> df <> [].
Proof. intros Hv ->. unfold total_valid_events in Hv. simpl in Hv. lia. Qed.

(** With a valid timestamp every item of the summary evaluates, and the
    ten cells are these. *)
Lemma summary_cells (df : DataFrame) :
  0 < total_valid_events df ->
  exists lo hi h c s,
    ts_min (map timestamp df) = Some lo /\
    ts_max (map timestamp df) = Some hi /\
    Series.mode0 (map hour df) = Ok h /\
    Series.mode0 (map (fun e => Some (fst (extract_detailed_threat_category
                                             (signature e)))) df) = Ok c /\
    Series.mode0 (map (fun e => Some (signature e)) df) = Ok s /\
    export_results df
    = SummaryWritten
        [ VInt (List.length df); VInt (nunique (map signature df));
          VTime lo; VTime hi; VInt h;
          VRatio (Z.of_nat (List.length df) # 24);
          VInt (distinct_dates df); VText c; VText s;
          VRatio (Z.of_nat (nunique (map signature df))
                  # Pos.of_nat (List.length df)) ].
Proof.
  intros Hv.
  pose proof (valid_nonempty df Hv) as Hdf.
  assert (Hts : Series.dropna (map timestamp df) <> []).
  { intros E. rewrite <- dropna_timestamp_length, E in Hv. simpl in Hv. lia. }
  assert (Hh : Series.dropna (map hour df) <> []).
  { intros E. rewrite <- dropna_hour_length, E in Hv. simpl in Hv. lia. }
  destruct (mode0_spec (map hour df) Hh) as (h & Eh & _).
  destruct (mode0_spec
              (map (fun e => Some (fst (extract_detailed_threat_category
                                          (signature e)))) df))
    as (c & Ec & _).
  { rewrite dropna_map_total. destruct df; [congruence | discriminate]. }
  destruct (mode0_spec (map (fun e => Some (signature e)) df))
    as (s & Es & _).
  { rewrite dropna_map_total. destruct df; [congruence | discriminate]. }
  unfold ts_min, ts_max.
  destruct (Series.dropna (map timestamp df)) as [|t r] eqn:Et; [congruence|].
  eexists _, _, h, c, s.
  split; [reflexivity|]. split; [reflexivity|].
  split; [exact Eh|]. split; [exact Ec|]. split; [exact Es|].
  unfold export_results, summary_stats, column, ts_min, ts_max.
  rewrite Et, Eh, Ec, Es.
  destruct df as [|e df]; [congruence|]. reflexivity.
Qed.

Lemma summary_needs_timestamp (df : DataFrame) (cells : list value) :
  export_results df = SummaryWritten cells -> 0 < total_valid_events df.
Proof.
  intros E. destruct (total_valid_events df) eqn:Ez; [|lia].
  rewrite (no_summary_without_timestamps df Ez) in E. discriminate.
Qed.

(** X20.  In a written summary the first cell is the number of events
    and the last one the uniqueness ratio, distinct signatures over
    events, which lies above 0 and is at most 1. *)
Theorem uniqueness_ratio_is_a_proper_fraction (df : DataFrame)
  (cells : list value) :
  export_results df = SummaryWritten cells ->
  nth_error cells 0 = Some (VInt (List.length df)) /\
  exists q,
    nth_error cells 9 = Some (VRatio q) /\
    q = (Z.of_nat (nunique (map signature df)) # Pos.of_nat (List.length df)) /\
    (0 < q)%Q /\ (q <= 1)%Q.
Proof.
  intros E. pose proof (summary_needs_timestamp df cells E) as Hv.
  destruct (summary_cells df Hv) as (lo & hi & h & c & s & H).
  destruct H as (_ & _ & _ & _ & _ & E').
  rewrite E' in E. injection E as <-.
  split; [reflexivity|]. eexists. split; [reflexivity|].
  split; [reflexivity|].
  pose proof (valid_nonempty df Hv) as Hdf.
  assert (Hlen : 0 < List.length df)
    by (destruct df; [congruence | simpl; lia]).
  pose proof (nunique_positive (map signature df)) as Hpos.
  pose proof (nodup_length_le (map signature df)) as Hle.
  rewrite length_map in Hle. fold (nunique (map signature df)) in Hle.
  assert (Hpos' : 0 < nunique (map signature df)).
  { apply Hpos. destruct df; [congruence | discriminate]. }
  unfold Qlt, Qle. simpl Qnum. simpl Qden.
  rewrite !Z.mul_1_r, Z.mul_1_l.
  assert (Hp : Z.pos (Pos.of_nat (List.length df))
               = Z.of_nat (List.length df)).
  { rewrite <- positive_nat_Z, Nat2Pos.id by lia. reflexivity. }
  rewrite Hp. lia.
Qed.

Lemma uniqueness_ratio_is_a_proper_fraction_witness :
  let at_hour s h :=
    mkEvent s (Some (mkTimestamp (mkDate 2024 1 15) h 0 0)) in
  let df :=
    [at_hour "ET SCAN" 9; at_hour "ET SCAN" 14; at_hour "ET POLICY" 9] in
  let cells :=
    match export_results df with SummaryWritten c => c | _ => [] end in
  export_results df = SummaryWritten cells /\
  nth_error cells 0 = Some (VInt 3) /\
  exists q, nth_error cells 9 = Some (VRatio q) /\
            q = (2 # 3) /\ (0 < q)%Q /\ (q <= 1)%Q.
Proof.
  intros at_hour df cells.
  assert (E : export_results df = SummaryWritten cells) by reflexivity.
  split; [exact E|].
  exact (uniqueness_ratio_is_a_proper_fraction df cells E).
Defined.

(** X23.  The "most frequent signature" and "main category" cells of a
    written summary hold a value of their column that no other value
    outnumbers; of several equally frequent values it is the first in
    the order of the text. *)
Theorem most_frequent_cells_are_modes (df : DataFrame) (cells : list value) :
  export_results df = SummaryWritten cells ->
  let sigs := map signature df in
  let cats := map (fun e => fst (extract_detailed_threat_category
                                   (signature e))) df in
  exists c s,
    nth_error cells 7 = Some (VText c) /\
    nth_error cells 8 = Some (VText s) /\
    In c cats /\ In s sigs /\
    (forall c', occurrences c' cats <= occurrences c cats /\
                (String.ltb c' c = true ->
                 occurrences c' cats < occurrences c cats)) /\
    (forall s', occurrences s' sigs <= occurrences s sigs /\
                (String.ltb s' s = true ->
                 occurrences s' sigs < occurrences s sigs)).
Proof.
  intros E sigs cats. pose proof (summary_needs_timestamp df cells E) as Hv.
  pose proof (valid_nonempty df Hv) as Hdf.
  destruct (summary_cells df Hv) as (lo & hi & h & c & s & H).
  destruct H as (_ & _ & _ & Ec & Es & E').
  rewrite E' in E. injection E as <-.
  destruct (mode0_spec
              (map (fun e => Some (fst (extract_detailed_threat_category
                                          (signature e)))) df))
    as (c' & Ec' & Hinc & Hc).
  { rewrite dropna_map_total. destruct df; [congruence | discriminate]. }
  destruct (mode0_spec (map (fun e => Some (signature e)) df))
    as (s' & Es' & Hins & Hs).
  { rewrite dropna_map_total. destruct df; [congruence | discriminate]. }
  rewrite Ec in Ec'. injection Ec' as <-.
  rewrite Es in Es'. injection Es' as <-.
  rewrite dropna_map_total in Hinc, Hins, Hc, Hs.
  exists c, s. repeat split; try reflexivity; try assumption.
  - apply Hc.
  - apply Hc.
  - apply Hs.
  - apply Hs.
Qed.

Lemma most_frequent_cells_are_modes_witness :
  let at_hour s h :=
    mkEvent s (Some (mkTimestamp (mkDate 2024 1 15) h 0 0)) in
  let df := [at_hour "ET SCAN" 9; at_hour "ET POLICY" 14;
             at_hour "ET POLICY" 9; at_hour "ET SCAN" 9] in
  let cells :=
    match export_results df with SummaryWritten c => c | _ => [] end in
  let sigs := map signature df in
  let cats := map (fun e => fst (extract_detailed_threat_category
                                   (signature e))) df in
  export_results df = SummaryWritten cells /\
  exists c s,
    nth_error cells 7 = Some (VText c) /\
    nth_error cells 8 = Some (VText s) /\
    In c cats /\ In s sigs /\
    (forall c', occurrences c' cats <= occurrences c cats /\
                (String.ltb c' c = true ->
                 occurrences c' cats < occurrences c cats)) /\
    (forall s', occurrences s' sigs <= occurrences s sigs /\
                (String.ltb s' s = true ->
                 occurrences s' sigs < occurrences s sigs)).
Proof.
  intros at_hour df cells sigs cats.
  assert (E : export_results df = SummaryWritten cells) by reflexivity.
  split; [exact E|].
  exact (most_frequent_cells_are_modes df cells E).
Defined.

(* ================================================================== *)
(** ** Frames that lack a column: summary and run                      *)
(* ================================================================== *)

(** On the frame of records that carry both keys the guarded functions
    are the ones above. *)
Lemma summary_stats_frame_of (df : DataFrame) :
  summary_stats_frame (frame_of df) = summary_stats df.
Proof. reflexivity. Qed.

Lemma export_results_frame_of (df : DataFrame) :
  export_results_frame (frame_of df) = export_results df.
Proof. reflexivity. Qed.

Lemma analyze_temporal_patterns_frame_of (df : DataFrame) :
  analyze_temporal_patterns_frame (frame_of df)
  = analyze_temporal_patterns df.
Proof.
  unfold analyze_temporal_patterns_frame, analyze_temporal_patterns.
  destruct df as [|e df]; [reflexivity|]. cbn [frame_of has_columns negb
    has_timestamp has_signature rows].
  destruct (most_active_hour (e :: df)); reflexivity.
Qed.

Lemma run_full_analysis_frame_of (df : DataFrame) :
  run_full_analysis_frame (frame_of df) = run_full_analysis df.
Proof.
  unfold run_full_analysis_frame, run_full_analysis.
  now rewrite analyze_temporal_patterns_frame_of, export_results_frame_of.
Qed.






